(** * Vlasiator: velocity mesh, velocity block container and the ionosphere grid

    A shallow embedding of
    - [velocity_mesh_old.h]        (class [vmesh::VelocityMesh<GID,LID>]),
    - [velocity_block_container.h] (class [vmesh::VelocityBlockContainer<LID>]),
    - [sysboundary/ionosphere.h]   (struct [SBC::SphericalTriGrid]),
    followed by the properties proved about them.

    Conventions.
    - [GID] and [LID] are instantiated at [uint32_t] (the width of the constants
      [error_velocity_block] and [error_velocity_block_index]); a value is a [Z]
      in [0, 2^32) and every arithmetic operation wraps modulo [2^32].
    - [Real] and [Realf] (typedefs of [definitions.h]) are floating-point
      types. The velocity mesh, the block container and the sums over the
      ionosphere grid ([nodeNeighbourArea], [offset_FAC], [solve]) are
      modelled over the real numbers [R]: rounding, underflow, overflow and
      NaN are not part of that model.
    - [elementArea] and [mappedElementArea], whose results depend on
      underflow, overflow and NaN, are in addition embedded over IEEE
      binary64 (module [SphericalTriGridF64]): [Real] is [double], a value is
      a primitive [float], every operation is rounded to nearest even on its
      own (no fused multiply-add, no extended precision), and [==] and [<]
      are the IEEE comparisons.
    - Undefined behaviour (an index outside a [std::vector] or [std::array],
      an integer division by zero) is the result [None]. *)

From Stdlib Require Import Floats ZArith Reals Lia Lra Psatz.
From stdpp Require Import base option list.

#[global] Instance R_eq_dec : EqDecision R := Req_dec_T.

(** ** Unsigned 32-bit arithmetic *)

Module U32.
Local Open Scope Z_scope.

Definition modulus : Z := 2 ^ 32.

Definition wrap (z : Z) : Z := z mod modulus.

Definition in_range (z : Z) : Prop := 0 <= z < modulus.

Definition add (a b : Z) : Z := wrap (a + b).
Definition sub (a b : Z) : Z := wrap (a - b).
Definition mul (a b : Z) : Z := wrap (a * b).

(** [a / b] and [a % b]: undefined for a zero divisor. *)
Definition div (a b : Z) : option Z :=
  if Z.eqb b 0 then None else Some (a / b).
Definition rem (a b : Z) : option Z :=
  if Z.eqb b 0 then None else Some (a mod b).

(** Conversion of a floating-point value to [uint32_t]: the fractional part
    is discarded; the conversion is undefined when the truncated value is
    not a 32-bit unsigned value. *)
Definition of_real (r : R) : option Z :=
  let z := if Rle_dec 0 r then Zfloor r else Zceil r in
  if (0 <=? z) && (z <? modulus) then Some z else None.
End U32.

(** A C array of three elements. *)
Record array3 (A : Type) : Type := Array3 { at0 : A; at1 : A; at2 : A }.
Arguments Array3 {A} _ _ _.
Arguments at0 {A} _.
Arguments at1 {A} _.
Arguments at2 {A} _.

(** ** velocity_mesh_old.h *)

Module VelocityMesh.
Local Open Scope Z_scope.

Definition error_velocity_block : Z := 0xFFFFFFFF.
Definition error_velocity_block_index : Z := 0xFFFFFFFF.

(** The static members of the class. *)
Record t : Type := Mesh {
  max_velocity_blocks : Z;
  blockLength : array3 Z;
  blockSize : array3 R;
  cellSize : array3 R;
  gridSize : array3 R;
  gridLength : array3 Z;
  meshMinLimits : array3 R;
  meshMaxLimits : array3 R
}.

(** [initialize(meshLimits, gridLength, blockLength)]; inside the body the
    name [gridLength] is the parameter, so [max_velocity_blocks] is the
    product of the three arguments in [LID] arithmetic. The six mesh limits
    are read at indices 0..5. *)
Definition initialize (meshLimits : list R) (gridLength' blockLength' : array3 Z)
  : option (bool * t) :=
  l0 ← meshLimits !! 0%nat; l1 ← meshLimits !! 1%nat;
  l2 ← meshLimits !! 2%nat; l3 ← meshLimits !! 3%nat;
  l4 ← meshLimits !! 4%nat; l5 ← meshLimits !! 5%nat;
  let meshMin := Array3 l0 l2 l4 in
  let meshMax := Array3 l1 l3 l5 in
  let gsize := Array3 (at0 meshMax - at0 meshMin)%R
                      (at1 meshMax - at1 meshMin)%R
                      (at2 meshMax - at2 meshMin)%R in
  let bsize := Array3 (at0 gsize / IZR (at0 gridLength'))%R
                      (at1 gsize / IZR (at1 gridLength'))%R
                      (at2 gsize / IZR (at2 gridLength'))%R in
  let csize := Array3 (at0 bsize / IZR (at0 blockLength'))%R
                      (at1 bsize / IZR (at1 blockLength'))%R
                      (at2 bsize / IZR (at2 blockLength'))%R in
  Some (true,
        {| max_velocity_blocks :=
             U32.mul (U32.mul (at0 gridLength') (at1 gridLength')) (at2 gridLength');
           blockLength := blockLength';
           blockSize := bsize;
           cellSize := csize;
           gridSize := gsize;
           gridLength := gridLength';
           meshMinLimits := meshMin;
           meshMaxLimits := meshMax |}).

(** [getGlobalID(refLevel,i,j,k)]. *)
Definition getGlobalID (m : t) (refLevel i j k : Z) : Z :=
  if (at0 (gridLength m) <=? i) || (at1 (gridLength m) <=? j)
     || (at2 (gridLength m) <=? k)
  then error_velocity_block
  else U32.add (U32.add i (U32.mul j (at0 (gridLength m))))
               (U32.mul (U32.mul k (at0 (gridLength m))) (at1 (gridLength m))).

(** [getIndices(globalID,refLevel,i,j,k)]: the four output references are
    returned as a tuple [(refLevel, i, j, k)]. *)
Definition getIndices (m : t) (globalID : Z) : option (Z * Z * Z * Z) :=
  let refLevel := 0 in
  if max_velocity_blocks m <=? globalID then
    Some (refLevel, error_velocity_block_index, error_velocity_block_index,
          error_velocity_block_index)
  else
    i ← U32.rem globalID (at0 (gridLength m));
    q ← U32.div globalID (at0 (gridLength m));
    j ← U32.rem q (at1 (gridLength m));
    k ← U32.div globalID (U32.mul (at0 (gridLength m)) (at1 (gridLength m)));
    Some (refLevel, i, j, k).

Definition getMaxVelocityBlocks (m : t) : Z := max_velocity_blocks m.

Definition getBaseGridLength (m : t) : array3 Z := gridLength m.
Definition getBaseGridBlockSize (m : t) : array3 R := blockSize m.
Definition getBaseGridCellSize (m : t) : array3 R := cellSize m.
Definition getMeshMinLimits (m : t) : array3 R := meshMinLimits m.
Definition getMeshMaxLimits (m : t) : array3 R := meshMaxLimits m.



(** [getBlockSize(globalID,size)] and [getCellSize(globalID,size)] *)
Definition getBlockSize (m : t) (globalID : Z) : bool * array3 R := (true, blockSize m).
Definition getCellSize (m : t) (globalID : Z) : bool * array3 R := (true, cellSize m).

End VelocityMesh.

(** ** velocity_block_container.h

    The model follows the [std::vector] branches of the class (no [USE_CUDA],
    no [DEBUG_VBC]). *)

Module VelocityBlockContainer.
Local Open Scope Z_scope.

Record t : Type := Container {
  currentCapacity : Z;
  numberOfBlocks : Z;
  block_data : list R;
  parameters : list R
}.

(** [VelocityBlockContainer()] *)
Definition empty : t :=
  {| currentCapacity := 0; numberOfBlocks := 0; block_data := []; parameters := [] |}.

Definition capacity (c : t) : Z := currentCapacity c.
Definition size (c : t) : Z := numberOfBlocks c.

(** [pop()] *)
Definition pop (c : t) : t :=
  if numberOfBlocks c =? 0 then c
  else {| currentCapacity := currentCapacity c;
          numberOfBlocks := U32.sub (numberOfBlocks c) 1;
          block_data := block_data c;
          parameters := parameters c |}.

(** [for (size_t i=first; i<first+count; ++i) dst[i] = src[i];]
    Both accesses are unchecked [operator[]]. *)
Fixpoint copy_loop (src dst : list R) (i count : nat) : option (list R) :=
  match count with
  | O => Some dst
  | S count' =>
      x ← src !! i;
      if decide (i < length dst)%nat
      then copy_loop src (<[i := x]> dst) (S i) count'
      else None
  end.

Section Recapacitate.
(** [WID3] (cells of a block) and [BlockParams::N_VELOCITY_BLOCK_PARAMS]
    are constants of [common.h]. *)
Variable WID3 : Z.
Variable N_VELOCITY_BLOCK_PARAMS : Z.

(** [recapacitate(newCapacity)]: the new vectors are value-initialised
    (zero) with [newCapacity*WID3] and
    [newCapacity*N_VELOCITY_BLOCK_PARAMS] elements, both products taken in
    [LID] arithmetic, receive the first [numberOfBlocks] blocks and are
    swapped in. *)
Definition recapacitate (c : t) (newCapacity : Z) : option (bool * t) :=
  if newCapacity <? numberOfBlocks c then Some (false, c)
  else
    let dummy_data := replicate (Z.to_nat (U32.mul newCapacity WID3)) 0%R in
    dummy_data' ← copy_loop (block_data c) dummy_data 0
                    (Z.to_nat (U32.mul (numberOfBlocks c) WID3));
    let dummy_parameters :=
      replicate (Z.to_nat (U32.mul newCapacity N_VELOCITY_BLOCK_PARAMS)) 0%R in
    dummy_parameters' ← copy_loop (parameters c) dummy_parameters 0
                          (Z.to_nat (U32.mul (numberOfBlocks c) N_VELOCITY_BLOCK_PARAMS));
    Some (true,
          {| currentCapacity := newCapacity;
             numberOfBlocks := numberOfBlocks c;
             block_data := dummy_data';
             parameters := dummy_parameters' |}).

(** The storage of the first [numberOfBlocks] blocks exists. *)
Definition blocks_allocated (c : t) : Prop :=
  numberOfBlocks c * WID3 <= Z.of_nat (length (block_data c)) /\
  numberOfBlocks c * N_VELOCITY_BLOCK_PARAMS <= Z.of_nat (length (parameters c)).

(** [BLOCK_ALLOCATION_FACTOR] of the [std::vector] build. *)
Definition BLOCK_ALLOCATION_FACTOR : R := 1.1.

(** [getBlockAllocationFactor()] *)
Definition getBlockAllocationFactor : R := BLOCK_ALLOCATION_FACTOR.

(** [clear()]: both vectors are swapped with empty ones. *)
Definition clear (c : t) : t :=
  {| currentCapacity := 0; numberOfBlocks := 0; block_data := []; parameters := [] |}.

(** [swap(vbc)]: the pair is this container and [vbc] after the call. *)
Definition swap (c vbc : t) : t * t :=
  ({| currentCapacity := currentCapacity vbc; numberOfBlocks := numberOfBlocks vbc;
      block_data := block_data vbc; parameters := parameters vbc |},
   {| currentCapacity := currentCapacity c; numberOfBlocks := numberOfBlocks c;
      block_data := block_data c; parameters := parameters c |}).

(** [resize()]: when [numberOfBlocks+1 >= currentCapacity] the capacity
    becomes [2 + numberOfBlocks * BLOCK_ALLOCATION_FACTOR], computed in
    floating point and converted to [LID], and both vectors are resized
    ([std::vector::resize] keeps the leading elements and appends zeros). *)
Definition resize (c : t) : option t :=
  if currentCapacity c <=? U32.add (numberOfBlocks c) 1 then
    newCapacity ← U32.of_real (2 + IZR (numberOfBlocks c) * BLOCK_ALLOCATION_FACTOR);
    Some {| currentCapacity := newCapacity;
            numberOfBlocks := numberOfBlocks c;
            block_data :=
              list.resize (Z.to_nat (U32.mul newCapacity WID3)) 0%R (block_data c);
            parameters :=
              list.resize (Z.to_nat (U32.mul newCapacity N_VELOCITY_BLOCK_PARAMS)) 0%R
                (parameters c) |}
  else Some c.

(** [for (size_t i=0; i<count; ++i) v[base+i] = 0.0;] where [base] is a
    32-bit value and the sum is taken in [size_t]. *)
Fixpoint fill_loop (v : list R) (base : Z) (i count : nat) : option (list R) :=
  match count with
  | O => Some v
  | S count' =>
      let index := Z.to_nat (base + Z.of_nat i) in
      if decide (index < length v)%nat
      then fill_loop (<[index := 0%R]> v) base (S i) count'
      else None
  end.

(** [push_back()]: the index of the new block and the container. *)
Definition push_back (c : t) : option (Z * t) :=
  let newIndex := numberOfBlocks c in
  c1 ← (if currentCapacity c <=? newIndex then resize c else Some c);
  data ← fill_loop (block_data c1) (U32.mul newIndex WID3) 0 (Z.to_nat WID3);
  params ← fill_loop (parameters c1) (U32.mul newIndex N_VELOCITY_BLOCK_PARAMS) 0
             (Z.to_nat N_VELOCITY_BLOCK_PARAMS);
  Some (newIndex,
        {| currentCapacity := currentCapacity c1;
           numberOfBlocks := U32.add (numberOfBlocks c1) 1;
           block_data := data;
           parameters := params |}).

(** [push_back(N_blocks)] *)
Definition push_back_blocks (c : t) (N_blocks : Z) : option (Z * t) :=
  let newIndex := numberOfBlocks c in
  let c0 := {| currentCapacity := currentCapacity c;
               numberOfBlocks := U32.add (numberOfBlocks c) N_blocks;
               block_data := block_data c;
               parameters := parameters c |} in
  c1 ← (if currentCapacity c0 <? numberOfBlocks c0 then resize c0 else Some c0);
  data ← fill_loop (block_data c1) (U32.mul newIndex WID3) 0
           (Z.to_nat (U32.mul WID3 N_blocks));
  params ← fill_loop (parameters c1) (U32.mul newIndex N_VELOCITY_BLOCK_PARAMS) 0
             (Z.to_nat (U32.mul N_VELOCITY_BLOCK_PARAMS N_blocks));
  Some (newIndex,
        {| currentCapacity := currentCapacity c1;
           numberOfBlocks := numberOfBlocks c1;
           block_data := data;
           parameters := params |}).

(** [setSize(newSize)] *)
Definition setSize (c : t) (newSize : Z) : option (bool * t) :=
  let c0 := {| currentCapacity := currentCapacity c;
               numberOfBlocks := newSize;
               block_data := block_data c;
               parameters := parameters c |} in
  c1 ← (if currentCapacity c <? newSize then resize c0 else Some c0);
  Some (true, c1).

(** [for (unsigned int i=0; i<count; ++i) v[target+i] = v[source+i];] with
    both sums taken in 32-bit arithmetic. *)
Fixpoint copy_block_loop (v : list R) (source target : Z) (i count : nat)
  : option (list R) :=
  match count with
  | O => Some v
  | S count' =>
      x ← v !! Z.to_nat (U32.add source (Z.of_nat i));
      let index := Z.to_nat (U32.add target (Z.of_nat i)) in
      if decide (index < length v)%nat
      then copy_block_loop (<[index := x]> v) source target (S i) count'
      else None
  end.

(** [copy(source,target)] *)
Definition copy (c : t) (source target : Z) : option t :=
  data ← copy_block_loop (block_data c) (U32.mul source WID3) (U32.mul target WID3)
           0 (Z.to_nat WID3);
  params ← copy_block_loop (parameters c)
             (U32.mul source N_VELOCITY_BLOCK_PARAMS)
             (U32.mul target N_VELOCITY_BLOCK_PARAMS)
             0 (Z.to_nat N_VELOCITY_BLOCK_PARAMS);
  Some {| currentCapacity := currentCapacity c;
          numberOfBlocks := numberOfBlocks c;
          block_data := data;
          parameters := params |}.

(** The state the operations of the class keep: the blocks counted fit the
    capacity, and both vectors hold exactly [currentCapacity] blocks, a
    number of elements that fits in 32 bits. *)
Definition consistent (c : t) : Prop :=
  0 <= numberOfBlocks c <= currentCapacity c /\
  currentCapacity c * WID3 < U32.modulus /\
  currentCapacity c * N_VELOCITY_BLOCK_PARAMS < U32.modulus /\
  Z.of_nat (length (block_data c)) = currentCapacity c * WID3 /\
  Z.of_nat (length (parameters c)) = currentCapacity c * N_VELOCITY_BLOCK_PARAMS.
End Recapacitate.
End VelocityBlockContainer.

(** ** Sums of reals, as the specification names them *)

Module Vec3.
Local Open Scope R_scope.

End Vec3.

(** ** Vectors of three binary64 values, as the geometry of the specification
    names them

    The operations are those of the hardware; sums associate to the left, as
    the C++ expressions do. *)

Module Vec3F64.
Local Open Scope float_scope.

(** Every component compares equal to 0 (it is [+0] or [-0]). *)
Definition is_zero (u : array3 float) : bool :=
  (at0 u =? 0) && (at1 u =? 0) && (at2 u =? 0).

(** Some component is NaN. *)
Definition has_nan (u : array3 float) : bool :=
  is_nan (at0 u) || is_nan (at1 u) || is_nan (at2 u).

Definition sub (u v : array3 float) : array3 float :=
  Array3 (at0 u - at0 v) (at1 u - at1 v) (at2 u - at2 v).

Definition dot (u v : array3 float) : float :=
  at0 u * at0 v + at1 u * at1 v + at2 u * at2 v.

Definition cross (u v : array3 float) : array3 float :=
  Array3 (at1 u * at2 v - at2 u * at1 v)
         (at2 u * at0 v - at0 u * at2 v)
         (at0 u * at1 v - at1 u * at0 v).

Definition magnitude (u : array3 float) : float := PrimFloat.sqrt (dot u u).
End Vec3F64.

(** ** sysboundary/ionosphere.h: the ionosphere finite element grid

    Node and element indices ([uint32_t]) and the counters
    [numTouchingElements] and [numDepNodes] ([uint]) are only compared,
    stepped through and used as subscripts; they are natural numbers here. *)

Module SphericalTriGrid.
Local Open Scope R_scope.

Definition MAX_TOUCHING_ELEMENTS : nat := 6.
Definition MAX_DEPENDING_NODES : nat := 10.

(** One finite element, spanned between 3 nodes. *)
Record Element : Type := mkElement {
  refLevel : Z;
  corners : array3 nat
}.

(** One grid node. The [std::array] members are lists whose length is the
    array's capacity. *)
Record Node : Type := mkNode {
  numTouchingElements : nat;
  touchingElements : list nat;
  numDepNodes : nat;
  dependingNodes : list nat;
  dependingCoeffs : list R;
  transposedCoeffs : list R;
  x : array3 R;
  xMapped : array3 R;
  depCoeffs : list R;
  depCoeffsT : list R;
  parameters : list R;
  fsgridCellCoupling : list (array3 Z * R)
}.

(** The grid. The MPI communicator handle is not part of the model. *)
Record t : Type := mkGrid {
  elements : list Element;
  nodes : list Node;
  rank : Z;
  isCouplingToCells : bool
}.

(** [elementArea(elementIndex)] *)
Definition elementArea (g : t) (elementIndex : nat) : option R :=
  el ← elements g !! elementIndex;
  na ← nodes g !! at0 (corners el);
  nb ← nodes g !! at1 (corners el);
  nc ← nodes g !! at2 (corners el);
  let a := x na in
  let b := x nb in
  let c := x nc in
  let e1 := Array3 (at0 b - at0 c) (at1 b - at1 c) (at2 b - at2 c) in
  let e2 := Array3 (at0 c - at0 a) (at1 c - at1 a) (at2 c - at2 a) in
  let area := Array3 (at1 e1 * at2 e2 - at2 e1 * at1 e2)
                     (at2 e1 * at0 e2 - at0 e1 * at2 e2)
                     (at0 e1 * at1 e2 - at1 e1 * at0 e2) in
  Some (0.5 * sqrt (at0 area * at0 area + at1 area * at1 area + at2 area * at2 area)).

(** [mappedElementArea(elementIndex)] *)
Definition mappedElementArea (g : t) (elementIndex : nat) : option R :=
  el ← elements g !! elementIndex;
  na ← nodes g !! at0 (corners el);
  nb ← nodes g !! at1 (corners el);
  nc ← nodes g !! at2 (corners el);
  let a := xMapped na in
  let b := xMapped nb in
  let c := xMapped nc in
  if bool_decide (sqrt (at0 a * at0 a + at1 a * at1 a + at2 a * at2 a) = 0)
     || bool_decide (sqrt (at0 b * at0 b + at1 b * at1 b + at2 b * at2 b) = 0)
     || bool_decide (sqrt (at0 c * at0 c + at1 c * at1 c + at2 c * at2 c) = 0)
  then Some 0
  else
    let e1 := Array3 (at0 b - at0 c) (at1 b - at1 c) (at2 b - at2 c) in
    let e2 := Array3 (at0 c - at0 a) (at1 c - at1 a) (at2 c - at2 a) in
    let area := Array3 (at1 e1 * at2 e2 - at2 e1 * at1 e2)
                       (at2 e1 * at0 e2 - at0 e1 * at2 e2)
                       (at0 e1 * at1 e2 - at1 e1 * at0 e2) in
    Some (0.5 * sqrt (at0 area * at0 area + at1 area * at1 area + at2 area * at2 area)).



(** *** Functions declared in ionosphere.h whose bodies are in ionosphere.cpp *)

Definition set_nodes (g : t) (ns : list Node) : t :=
  {| elements := elements g; nodes := ns; rank := rank g;
     isCouplingToCells := isCouplingToCells g |}.

Definition set_dependencies (n : Node) (count : nat) (deps : list nat)
    (coeffs coeffsT : list R) : Node :=
  {| numTouchingElements := numTouchingElements n;
     touchingElements := touchingElements n;
     numDepNodes := count;
     dependingNodes := deps;
     dependingCoeffs := coeffs;
     transposedCoeffs := coeffsT;
     x := x n; xMapped := xMapped n;
     depCoeffs := depCoeffs n; depCoeffsT := depCoeffsT n;
     parameters := parameters n;
     fsgridCellCoupling := fsgridCellCoupling n |}.



(** Modelled from the spec: the body of [addMatrixDependency] (only declared
    in ionosphere.h). Per the specification a node's dependency list has no
    duplicate target, a coefficient added again for an existing (node,
    target) pair accumulates additively, the forward and the transposed
    coefficient are stored separately, and the fixed capacity is checked at
    insertion: writing past the arrays is fatal ([None]). A new entry starts
    the coefficient that was not given at 0. *)
Definition addMatrixDependency (g : t) (node1 node2 : nat) (coeff : R)
    (transposed : bool) : option t :=
  n ← nodes g !! node1;
  match list_find (λ d, d = node2) (take (numDepNodes n) (dependingNodes n)) with
  | Some (i, _) =>
      c ← dependingCoeffs n !! i;
      cT ← transposedCoeffs n !! i;
      Some (set_nodes g
              (<[node1 := set_dependencies n (numDepNodes n) (dependingNodes n)
                            (<[i := if transposed then c else c + coeff]> (dependingCoeffs n))
                            (<[i := if transposed then cT + coeff else cT]> (transposedCoeffs n))]>
                 (nodes g)))
  | None =>
      let k := numDepNodes n in
      if decide (k < length (dependingNodes n) ∧ k < length (dependingCoeffs n)
                 ∧ k < length (transposedCoeffs n))%nat
      then Some (set_nodes g
                   (<[node1 := set_dependencies n (S k) (<[k := node2]> (dependingNodes n))
                                 (<[k := if transposed then 0 else coeff]> (dependingCoeffs n))
                                 (<[k := if transposed then coeff else 0]> (transposedCoeffs n))]>
                      (nodes g)))
      else None
  end.

(** The grids obtained from [g0] by a sequence of successful calls of
    [addMatrixDependency]. *)
Inductive dependencies_added (g0 : t) : t -> Prop :=
| dependencies_added_none : dependencies_added g0 g0
| dependencies_added_call g node1 node2 coeff transposed g' :
    dependencies_added g0 g ->
    addMatrixDependency g node1 node2 coeff transposed = Some g' ->
    dependencies_added g0 g'.

(** No target occurs twice among the first [numDepNodes] entries of
    [dependingNodes], for any node. *)
Definition dependencies_distinct (g : t) : Prop :=
  forall i n, nodes g !! i = Some n -> NoDup (take (numDepNodes n) (dependingNodes n)).

(** The used part of the dependency arrays lies within their capacity. *)
Definition dependencies_within_capacity (g : t) : Prop :=
  forall i n, nodes g !! i = Some n ->
    (numDepNodes n <= length (dependingNodes n) /\
     numDepNodes n <= length (dependingCoeffs n) /\
     numDepNodes n <= length (transposedCoeffs n))%nat.

Section FieldAlignedCurrent.
(** [ionosphereParameters::SOURCE], the index of the field-aligned-current
    source term among the node parameters (an enumerator of common.h). *)
Variable SOURCE : nat.




End FieldAlignedCurrent.

(** What [solve] reports about its run. *)
Inductive SolveReport : Type :=
| Converged
| IterationCapReached.

Section ConjugateGradient.
(** One conjugate-gradient iteration over all nodes, the relative residual
    of the current iterate and the configured tolerance. *)
Variable cgIteration : t -> t.
Variable relativeResidual : t -> R.
Variable tolerance : R.

(** Modelled from the spec: the loop of [solve] (body missing, see below).
    The residual is tested before every iteration; [remaining] counts the
    iterations left before the cap. *)
Fixpoint solve_loop (g : t) (iteration remaining : nat) : t * nat * SolveReport :=
  if Rlt_dec (relativeResidual g) tolerance then (g, iteration, Converged)
  else
    match remaining with
    | O => (g, iteration, IterationCapReached)
    | S remaining' => solve_loop (cgIteration g) (S iteration) remaining'
    end.

(** Modelled from the spec: the body of [solve] (only declared in
    ionosphere.h). Per the specification it iterates until either the
    relative residual falls below the configured tolerance or the number
    of iterations reaches [Ionosphere::solverMaxIterations] (an [int]);
    reaching the cap without convergence is reported and is not fatal.
    The result is the grid holding the last iterate, the number of
    iterations performed and the report. *)
Definition solve (solverMaxIterations : Z) (g : t) : t * nat * SolveReport :=
  solve_loop g 0 (Z.to_nat solverMaxIterations).
End ConjugateGradient.
End SphericalTriGrid.

(** ** sysboundary/ionosphere.h over binary64: the areas of the elements

    The same [struct]s with [Real] as [double]. [Element] holds no
    floating-point member and is shared with the module above. *)

Module SphericalTriGridF64.
Local Open Scope float_scope.

(** One grid node. *)
Record Node : Type := mkNode {
  numTouchingElements : nat;
  touchingElements : list nat;
  numDepNodes : nat;
  dependingNodes : list nat;
  dependingCoeffs : list float;
  transposedCoeffs : list float;
  x : array3 float;
  xMapped : array3 float;
  depCoeffs : list float;
  depCoeffsT : list float;
  parameters : list float;
  fsgridCellCoupling : list (array3 Z * float)
}.

(** The grid. *)
Record t : Type := mkGrid {
  elements : list SphericalTriGrid.Element;
  nodes : list Node;
  rank : Z;
  isCouplingToCells : bool
}.

(** [elementArea(elementIndex)] *)
Definition elementArea (g : t) (elementIndex : nat) : option float :=
  el ← elements g !! elementIndex;
  na ← nodes g !! at0 (SphericalTriGrid.corners el);
  nb ← nodes g !! at1 (SphericalTriGrid.corners el);
  nc ← nodes g !! at2 (SphericalTriGrid.corners el);
  let a := x na in
  let b := x nb in
  let c := x nc in
  let e1 := Array3 (at0 b - at0 c) (at1 b - at1 c) (at2 b - at2 c) in
  let e2 := Array3 (at0 c - at0 a) (at1 c - at1 a) (at2 c - at2 a) in
  let area := Array3 (at1 e1 * at2 e2 - at2 e1 * at1 e2)
                     (at2 e1 * at0 e2 - at0 e1 * at2 e2)
                     (at0 e1 * at1 e2 - at1 e1 * at0 e2) in
  Some (0.5 * PrimFloat.sqrt
                (at0 area * at0 area + at1 area * at1 area + at2 area * at2 area)).

(** [mappedElementArea(elementIndex)]; [return 0] converts the integer 0 to
    [+0]. *)
Definition mappedElementArea (g : t) (elementIndex : nat) : option float :=
  el ← elements g !! elementIndex;
  na ← nodes g !! at0 (SphericalTriGrid.corners el);
  nb ← nodes g !! at1 (SphericalTriGrid.corners el);
  nc ← nodes g !! at2 (SphericalTriGrid.corners el);
  let a := xMapped na in
  let b := xMapped nb in
  let c := xMapped nc in
  if (PrimFloat.sqrt (at0 a * at0 a + at1 a * at1 a + at2 a * at2 a) =? 0)
     || (PrimFloat.sqrt (at0 b * at0 b + at1 b * at1 b + at2 b * at2 b) =? 0)
     || (PrimFloat.sqrt (at0 c * at0 c + at1 c * at1 c + at2 c * at2 c) =? 0)
  then Some 0
  else
    let e1 := Array3 (at0 b - at0 c) (at1 b - at1 c) (at2 b - at2 c) in
    let e2 := Array3 (at0 c - at0 a) (at1 c - at1 a) (at2 c - at2 a) in
    let area := Array3 (at1 e1 * at2 e2 - at2 e1 * at1 e2)
                       (at2 e1 * at0 e2 - at0 e1 * at2 e2)
                       (at0 e1 * at1 e2 - at1 e1 * at0 e2) in
    Some (0.5 * PrimFloat.sqrt
                  (at0 area * at0 area + at1 area * at1 area + at2 area * at2 area)).
End SphericalTriGridF64.

(** ** Single triangles over binary64

    One element with the corners 0, 1, 2; a node is given by its position
    [x] and its mapped position [xMapped]. *)

Module Triangle.
Import SphericalTriGridF64.
Local Open Scope float_scope.

Definition node (position mapped : array3 float) : Node :=
  {| numTouchingElements := 1;
     touchingElements := replicate 6 0%nat;
     numDepNodes := 0;
     dependingNodes := replicate 10 0%nat;
     dependingCoeffs := replicate 10 0;
     transposedCoeffs := replicate 10 0;
     x := position;
     xMapped := mapped;
     depCoeffs := replicate 10 0;
     depCoeffsT := replicate 10 0;
     parameters := [0; 0];
     fsgridCellCoupling := [] |}.

Definition grid (na nb nc : Node) : t :=
  {| elements := [ SphericalTriGrid.mkElement 0 (Array3 0 1 2)%nat ];
     nodes := [na; nb; nc];
     rank := 0;
     isCouplingToCells := true |}.

(** A right-angled triangle with legs of length 1; corner 0 is not mapped. *)
Definition right_angled : t :=
  grid (node (Array3 0 0 0) (Array3 0 0 0))
       (node (Array3 1 0 0) (Array3 2 0 0))
       (node (Array3 0 1 0) (Array3 0 2 0)).

(** The same triangle, mapped: corner 0 is mapped to the point
    [(2^-600, 0, 0)], whose square is below the smallest positive binary64
    value. *)
Definition tiny_corner : t :=
  grid (node (Array3 0 0 0) (Array3 0x1p-600 0 0))
       (node (Array3 1 0 0) (Array3 1 0 0))
       (node (Array3 0 1 0) (Array3 0 1 0)).

(** Three corners on one line, at distances of [2^600]: the products of the
    edge components are above the largest finite binary64 value. *)
Definition far_collinear : t :=
  grid (node (Array3 0 0 0) (Array3 0 0 0))
       (node (Array3 0x1p600 0x1p600 0) (Array3 0 0 0))
       (node (Array3 0x1p601 0x1p601 0) (Array3 0 0 0)).
End Triangle.

(** ** A small mesh: the base tetrahedron

    Four nodes, four triangles; node 3 is not mapped into the simulation
    domain. Every node carries two parameters. *)

Module Tetrahedron.
Import SphericalTriGrid.
Local Open Scope R_scope.

Definition node (px py pz mx my mz : R) (e0 e1 e2 : nat) (source : R) : Node :=
  {| numTouchingElements := 3;
     touchingElements := [e0; e1; e2; 0; 0; 0]%nat;
     numDepNodes := 0;
     dependingNodes := replicate 10 0%nat;
     dependingCoeffs := replicate 10 0;
     transposedCoeffs := replicate 10 0;
     x := Array3 px py pz;
     xMapped := Array3 mx my mz;
     depCoeffs := replicate 10 0;
     depCoeffsT := replicate 10 0;
     parameters := [source; 0];
     fsgridCellCoupling := [] |}.

Definition grid : t :=
  {| elements := [ mkElement 0 (Array3 0 1 2); mkElement 0 (Array3 0 3 1);
                   mkElement 0 (Array3 0 2 3); mkElement 0 (Array3 1 3 2) ]%nat;
     nodes := [ node 1 1 1          2 2 2          0 1 2  5;
                node 1 (-1) (-1)    2 (-2) (-2)    0 1 3  (-1);
                node (-1) 1 (-1)    (-2) 2 (-2)    0 2 3  2;
                node (-1) (-1) 1    0 0 0          1 2 3  0 ];
     rank := 0;
     isCouplingToCells := true |}.
End Tetrahedron.

(** * Properties *)

(** ** Unsigned arithmetic *)

Lemma U32_wrap_small (z : Z) : U32.in_range z -> U32.wrap z = z.
Proof. unfold U32.in_range, U32.wrap. intros Hz. apply Z.mod_small. lia. Qed.

Lemma U32_modulus_pos : (0 < U32.modulus)%Z.
Proof. reflexivity. Qed.

(** ** velocity_mesh_old.h: decomposition and re-encoding of block ids *)

Section VelocityMeshRoundTrip.
Import VelocityMesh.
Local Open Scope Z_scope.

Lemma initialize_fields ml gl bl m :
  initialize ml gl bl = Some (true, m) ->
  gridLength m = gl /\
  max_velocity_blocks m = U32.mul (U32.mul (at0 gl) (at1 gl)) (at2 gl).
Proof.
  unfold initialize. intros H.
  repeat (match type of H with
          | (mbind _ ?o) = _ => destruct o; simpl in H; [| discriminate]
          end).
  injection H as <-. split; reflexivity.
Qed.

(** Whenever [initialize] has run and some id is below
    [max_velocity_blocks], no division of [getIndices] is by zero. *)
Lemma grid_positive (a b c g : Z) :
  0 <= a -> 0 <= b -> 0 <= c ->
  0 <= g < U32.mul (U32.mul a b) c ->
  0 < a /\ 0 < b /\ 0 < c.
Proof.
  intros Ha Hb Hc Hg.
  assert (a <> 0 /\ b <> 0 /\ c <> 0) as (?&?&?); [| lia].
  unfold U32.mul, U32.wrap in Hg.
  repeat split; intros ->;
    rewrite ?Z.mul_0_l, ?Z.mul_0_r, ?Z.mod_0_l in Hg by (compute; discriminate);
    lia.
Qed.

Lemma decompose_recompose (a b g : Z) :
  0 < a -> 0 < b -> 0 <= g ->
  g mod a + (g / a) mod b * a + g / (a * b) * a * b = g.
Proof.
  intros Ha Hb Hg.
  rewrite <- (Z.div_div g a b) by lia.
  pose proof (Z.div_mod g a ltac:(lia)) as E1.
  pose proof (Z.div_mod (g / a) b ltac:(lia)) as E2.
  nia.
Qed.

(** C9, as amended. After [initialize] with grid lengths whose product
    [gridLength[0]*gridLength[1]*gridLength[2]] fits in 32 bits, every
    [globalID] below [max_velocity_blocks] is decomposed by [getIndices] into
    [refLevel = 0] and three indices, none of them
    [error_velocity_block_index], from which [getGlobalID] rebuilds the
    original [globalID]. *)
Theorem getIndices_getGlobalID_roundtrip ml gl bl m g :
  initialize ml gl bl = Some (true, m) ->
  0 <= at0 gl -> 0 <= at1 gl -> 0 <= at2 gl ->
  at0 gl * at1 gl * at2 gl < U32.modulus ->
  0 <= g < max_velocity_blocks m ->
  exists i j k,
    getIndices m g = Some (0, i, j, k) /\
    i <> error_velocity_block_index /\
    j <> error_velocity_block_index /\
    k <> error_velocity_block_index /\
    getGlobalID m 0 i j k = g.
Proof.
  intros Hinit H0 H1 H2 Hprod Hg.
  destruct (initialize_fields _ _ _ _ Hinit) as [Hgl Hmax].
  destruct gl as [a b c]; simpl in *.
  rewrite Hmax in Hg.
  destruct (grid_positive a b c g H0 H1 H2 Hg) as (Ha & Hb & Hc).
  assert (Hab : 0 < a * b < U32.modulus) by nia.
  assert (Hmab : U32.mul a b = a * b).
  { apply U32_wrap_small. unfold U32.in_range. lia. }
  assert (Hmabc : U32.mul (U32.mul a b) c = a * b * c).
  { rewrite Hmab. apply U32_wrap_small. unfold U32.in_range. nia. }
  rewrite Hmabc in Hg.
  pose proof (Z.mod_pos_bound g a Ha) as Bi.
  pose proof (Z.mod_pos_bound (g / a) b Hb) as Bj.
  assert (Bk : 0 <= g / (a * b) < c).
  { split; [apply Z.div_pos; lia |].
    apply Z.div_lt_upper_bound; lia. }
  pose proof (decompose_recompose a b g Ha Hb (proj1 Hg)) as Hrec.
  exists (g mod a), ((g / a) mod b), (g / (a * b)).
  split; [| split; [| split; [| split]]].
  - unfold getIndices. rewrite Hmax, Hmabc, Hgl. simpl.
    destruct (Z.leb_spec (a * b * c) g) as [Hle | _]; [lia |].
    unfold U32.rem, U32.div. rewrite Hmab.
    destruct (Z.eqb_spec a 0); [lia |]. simpl.
    destruct (Z.eqb_spec b 0); [lia |]. simpl.
    destruct (Z.eqb_spec (a * b) 0); [lia |]. reflexivity.
  - unfold error_velocity_block_index. unfold U32.modulus in *. nia.
  - unfold error_velocity_block_index. unfold U32.modulus in *. nia.
  - unfold error_velocity_block_index. unfold U32.modulus in *. nia.
  - unfold getGlobalID. rewrite Hgl. simpl.
    destruct (Z.leb_spec a (g mod a)); [lia |].
    destruct (Z.leb_spec b ((g / a) mod b)); [lia |].
    destruct (Z.leb_spec c (g / (a * b))); [lia |]. simpl.
    assert (Bja : 0 <= (g / a) mod b * a) by nia.
    assert (Bka : 0 <= g / (a * b) * a) by nia.
    assert (Bkab : 0 <= g / (a * b) * a * b) by nia.
    unfold U32.add, U32.mul.
    rewrite (U32_wrap_small ((g / a) mod b * a)) by (unfold U32.in_range; lia).
    rewrite (U32_wrap_small (g / (a * b) * a)) by (unfold U32.in_range; nia).
    rewrite (U32_wrap_small (g / (a * b) * a * b)) by (unfold U32.in_range; lia).
    rewrite (U32_wrap_small (g mod a + _)) by (unfold U32.in_range; lia).
    rewrite Hrec. apply U32_wrap_small. unfold U32.in_range. lia.
Qed.

(** A mesh of 3 x 2 x 2 blocks and the block id 7 = 1 + 0*3 + 1*6. *)
Lemma getIndices_getGlobalID_roundtrip_witness :
  exists m,
    initialize [0; 3; 0; 2; 0; 2]%R (Array3 3 2 2) (Array3 4 4 4) = Some (true, m) /\
    exists i j k,
      getIndices m 7 = Some (0, i, j, k) /\
      i <> error_velocity_block_index /\
      j <> error_velocity_block_index /\
      k <> error_velocity_block_index /\
      getGlobalID m 0 i j k = 7.
Proof.
  eexists. split; [reflexivity |].
  apply (getIndices_getGlobalID_roundtrip
           [0; 3; 0; 2; 0; 2]%R (Array3 3 2 2) (Array3 4 4 4)).
  - reflexivity.
  - simpl; lia.
  - simpl; lia.
  - simpl; lia.
  - reflexivity.
  - split; [lia | reflexivity].
Defined.

(** The claim as written fails when the product of the grid lengths wraps:
    with [gridLength = {65536, 65537, 2}] the product [gridLength[0] *
    gridLength[1]] is [2^32 + 65536], stored as [65536], so
    [max_velocity_blocks = 131072]. The id [65536] is below it and is
    decomposed into valid indices [(0, 1, 1)], which [getGlobalID] re-encodes
    as [131072]. *)
Lemma getIndices_getGlobalID_roundtrip_overflow :
  exists m,
    initialize [0; 1; 0; 1; 0; 1]%R (Array3 65536 65537 2) (Array3 4 4 4)
      = Some (true, m) /\
    max_velocity_blocks m = 131072 /\
    0 <= 65536 < max_velocity_blocks m /\
    getIndices m 65536 = Some (0, 0, 1, 1) /\
    getGlobalID m 0 0 1 1 = 131072 /\
    getGlobalID m 0 0 1 1 <> 65536.
Proof.
  eexists. split; [reflexivity |].
  split; [reflexivity |].
  split; [split; [lia | reflexivity] |].
  split; [reflexivity |].
  split; [reflexivity |].
  vm_compute. discriminate.
Qed.
End VelocityMeshRoundTrip.

(** ** sysboundary/ionosphere.h: the geometry kernel *)

Section GeometryKernel.
Import SphericalTriGrid.
Local Open Scope R_scope.



End GeometryKernel.

(** ** IEEE binary64: signs and NaN of the operations the areas use

    The primitive operations are specified by [SpecFloat]; the facts below
    are read off that specification. *)

Section Binary64Rounding.
Local Open Scope Z_scope.

Lemma shr_1_nonneg mrs : 0 <= shr_m mrs -> 0 <= shr_m (shr_1 mrs).
Proof. destruct mrs as [[| [p | p |] | p] r s]; simpl; lia. Qed.

Lemma iter_pos_shr_1_nonneg p :
  forall mrs, 0 <= shr_m mrs -> 0 <= shr_m (SpecFloat.iter_pos shr_1 p mrs).
Proof.
  induction p as [p IH | p IH |]; simpl; intros mrs H.
  - apply IH, IH, shr_1_nonneg, H.
  - apply IH, IH, H.
  - apply shr_1_nonneg, H.
Qed.

Lemma shr_fexp_nonneg m e l :
  0 <= m -> 0 <= shr_m (fst (shr_fexp prec emax m e l)).
Proof.
  intros H. unfold shr_fexp, shr.
  assert (Hm : 0 <= shr_m (shr_record_of_loc m l)) by (destruct l as [| []]; exact H).
  destruct (Z.sub _ _); simpl; auto using iter_pos_shr_1_nonneg.
Qed.

Lemma round_nearest_even_nonneg m l : 0 <= m -> 0 <= round_nearest_even m l.
Proof.
  intros H. destruct l as [| []]; simpl; try destruct (Z.even m); lia.
Qed.

(** Rounding a non-negative mantissa gives a number of the requested sign,
    never NaN. *)
Lemma binary_round_aux_sign sx mx ex lx :
  0 <= mx ->
  match binary_round_aux prec emax sx mx ex lx with
  | S754_nan => False
  | S754_zero s | S754_infinity s | S754_finite s _ _ => s = sx
  end.
Proof.
  intros H. unfold binary_round_aux.
  pose proof (shr_fexp_nonneg mx ex lx H) as H1.
  destruct (shr_fexp prec emax mx ex lx) as [mrs' e']. simpl in H1.
  pose proof (shr_fexp_nonneg _ e' loc_Exact
                (round_nearest_even_nonneg _ (loc_of_shr_record mrs') H1)) as H2.
  destruct (shr_fexp prec emax _ e' loc_Exact) as [mrs'' e'']. simpl in H2.
  destruct (shr_m mrs'') as [| m | m]; [reflexivity | | lia].
  destruct (Z.leb e'' _); reflexivity.
Qed.

(** [SFleb (S754_zero false) f] holds of the zeros, of the positive finite
    numbers and of [+infinity]; it fails for the negative numbers and NaN. *)
Lemma binary_round_aux_nonneg mx ex lx :
  0 <= mx ->
  SFleb (S754_zero false) (binary_round_aux prec emax false mx ex lx) = true.
Proof.
  intros H. pose proof (binary_round_aux_sign false mx ex lx H) as Hs.
  destruct (binary_round_aux prec emax false mx ex lx); try contradiction;
    subst; reflexivity.
Qed.

Lemma SFmul_self_nonneg f :
  f <> S754_nan -> SFleb (S754_zero false) (SF64mul f f) = true.
Proof.
  intros Hf. destruct f as [s | s | | s m e]; try congruence.
  - destruct s; reflexivity.
  - destruct s; reflexivity.
  - unfold SF64mul, SFmul. replace (xorb s s) with false by (destruct s; reflexivity).
    apply binary_round_aux_nonneg. lia.
Qed.

Lemma SFadd_nonneg f1 f2 :
  SFleb (S754_zero false) f1 = true -> SFleb (S754_zero false) f2 = true ->
  SFleb (S754_zero false) (SF64add f1 f2) = true.
Proof.
  intros H1 H2.
  destruct f1 as [s1 | [] | | [] m1 e1]; try discriminate H1;
    destruct f2 as [s2 | [] | | [] m2 e2]; try discriminate H2;
    try reflexivity.
  - destruct s1, s2; reflexivity.
  - unfold SF64add, SFadd. simpl.
    unfold binary_round.
    destruct (shl_align _ _ _) as [mz ez].
    apply binary_round_aux_nonneg. lia.
Qed.

Lemma sqrtrem_nonneg n : 0 <= n -> 0 <= fst (Z.sqrtrem n).
Proof.
  intros H. pose proof (Z.sqrtrem_spec n H) as Hs.
  destruct (Z.sqrtrem n) as [s r]. simpl. lia.
Qed.

Lemma SFsqrt_nonneg f :
  SFleb (S754_zero false) f = true ->
  SFleb (S754_zero false) (SF64sqrt f) = true.
Proof.
  intros H. destruct f as [s | [] | | [] m e]; try discriminate H; try reflexivity.
  unfold SF64sqrt, SFsqrt, SFsqrt_core_binary.
  match goal with |- context [Z.sqrtrem ?n] =>
    assert (Hn : 0 <= n); [| pose proof (sqrtrem_nonneg n Hn) as Hq;
                             destruct (Z.sqrtrem n) as [q r]] end.
  - destruct (Z.sub _ _); try lia. apply Z.shiftl_nonneg. lia.
  - simpl in Hq. apply binary_round_aux_nonneg. exact Hq.
Qed.

Lemma SFmul_half_nonneg f :
  SFleb (S754_zero false) f = true ->
  SFleb (S754_zero false) (SF64mul (Prim2SF 0.5) f) = true.
Proof.
  intros H. change (Prim2SF 0.5) with (S754_finite false 4503599627370496 (-53)).
  destruct f as [s | [] | | [] m e]; try discriminate H; try reflexivity.
  unfold SF64mul, SFmul. apply binary_round_aux_nonneg. lia.
Qed.
End Binary64Rounding.

Section Binary64.
Local Open Scope float_scope.

Lemma is_nan_Prim2SF v :
  is_nan v = match Prim2SF v with S754_nan => true | _ => false end.
Proof.
  unfold is_nan. rewrite FloatAxioms.eqb_spec.
  destruct (Prim2SF v) as [s | s | | s m e]; try reflexivity.
  - destruct s; reflexivity.
  - unfold SFeqb, SFcompare.
    rewrite Z.compare_refl, Pos.compare_cont_refl. destruct s; reflexivity.
Qed.

Lemma leb_0_Prim2SF v : (0 <=? v) = SFleb (S754_zero false) (Prim2SF v).
Proof. rewrite leb_spec. reflexivity. Qed.

Lemma is_nan_not_leb v : is_nan v = true -> (0 <=? v) = false.
Proof.
  rewrite is_nan_Prim2SF, leb_0_Prim2SF.
  destruct (Prim2SF v); try discriminate. reflexivity.
Qed.

Lemma leb_0_not_ltb v : (0 <=? v) = true -> (v <? 0) = false.
Proof.
  rewrite leb_0_Prim2SF, ltb_spec. change (Prim2SF 0) with (S754_zero false).
  destruct (Prim2SF v) as [s | [] | | [] m e]; try discriminate; reflexivity.
Qed.

Lemma is_nan_not_ltb v : is_nan v = true -> (v <? 0) = false.
Proof.
  rewrite is_nan_Prim2SF, ltb_spec.
  destruct (Prim2SF v); try discriminate. reflexivity.
Qed.

Lemma square_nonneg v : is_nan v = false -> (0 <=? v * v) = true.
Proof.
  rewrite is_nan_Prim2SF, leb_0_Prim2SF, mul_spec. intros H.
  apply SFmul_self_nonneg. intros E. rewrite E in H. discriminate.
Qed.

Lemma square_nan v : is_nan v = true -> is_nan (v * v) = true.
Proof.
  rewrite !is_nan_Prim2SF, mul_spec.
  destruct (Prim2SF v); try discriminate. reflexivity.
Qed.

Lemma add_nonneg v w :
  (0 <=? v) = true -> (0 <=? w) = true -> (0 <=? v + w) = true.
Proof. rewrite !leb_0_Prim2SF, add_spec. apply SFadd_nonneg. Qed.

Lemma add_nan_l v w : is_nan v = true -> is_nan (v + w) = true.
Proof.
  rewrite !is_nan_Prim2SF, add_spec.
  destruct (Prim2SF v); try discriminate. reflexivity.
Qed.

Lemma add_nan_r v w : is_nan w = true -> is_nan (v + w) = true.
Proof.
  rewrite !is_nan_Prim2SF, add_spec.
  destruct (Prim2SF w); try discriminate. destruct (Prim2SF v); reflexivity.
Qed.

Lemma sqrt_nonneg v : (0 <=? v) = true -> (0 <=? PrimFloat.sqrt v) = true.
Proof. rewrite !leb_0_Prim2SF, sqrt_spec. apply SFsqrt_nonneg. Qed.

Lemma sqrt_nan v : is_nan v = true -> is_nan (PrimFloat.sqrt v) = true.
Proof.
  rewrite !is_nan_Prim2SF, sqrt_spec.
  destruct (Prim2SF v); try discriminate. reflexivity.
Qed.

Lemma half_nonneg v : (0 <=? v) = true -> (0 <=? 0.5 * v) = true.
Proof. rewrite !leb_0_Prim2SF, mul_spec. apply SFmul_half_nonneg. Qed.

Lemma half_nan v : is_nan v = true -> is_nan (0.5 * v) = true.
Proof.
  rewrite !is_nan_Prim2SF, mul_spec.
  destruct (Prim2SF v); try discriminate. reflexivity.
Qed.

(** [v == 0] holds of [+0] and [-0] only. *)
Lemma eqb_0_inv v : (v =? 0) = true -> v = 0 \/ v = -0.
Proof.
  rewrite FloatAxioms.eqb_spec. change (Prim2SF 0) with (S754_zero false).
  intros H. rewrite <- (SF2Prim_Prim2SF v).
  destruct (Prim2SF v) as [[] | [] | | [] m e]; try discriminate H.
  - right. reflexivity.
  - left. reflexivity.
Qed.
End Binary64.

(** ** sysboundary/ionosphere.h over binary64: the areas of the elements *)

Section GeometryKernelBinary64.
Import SphericalTriGridF64.
Local Open Scope float_scope.

(** Half the rounded length of a vector is NaN when a component of the
    vector is NaN, and is [>= 0] (possibly [+infinity]) otherwise. *)
Lemma half_magnitude_sign (n : array3 float) :
  (0.5 * Vec3F64.magnitude n <? 0) = false /\
  (0 <=? 0.5 * Vec3F64.magnitude n) = negb (Vec3F64.has_nan n).
Proof.
  destruct n as [n0 n1 n2].
  unfold Vec3F64.magnitude, Vec3F64.dot, Vec3F64.has_nan. simpl.
  destruct (is_nan n0) eqn:E0; [| destruct (is_nan n1) eqn:E1;
                                  [| destruct (is_nan n2) eqn:E2]]; simpl.
  - assert (Hn : is_nan (0.5 * PrimFloat.sqrt (n0 * n0 + n1 * n1 + n2 * n2)) = true)
      by (apply half_nan, sqrt_nan, add_nan_l, add_nan_l, square_nan, E0).
    split; [apply is_nan_not_ltb | apply is_nan_not_leb]; exact Hn.
  - assert (Hn : is_nan (0.5 * PrimFloat.sqrt (n0 * n0 + n1 * n1 + n2 * n2)) = true)
      by (apply half_nan, sqrt_nan, add_nan_l, add_nan_r, square_nan, E1).
    split; [apply is_nan_not_ltb | apply is_nan_not_leb]; exact Hn.
  - assert (Hn : is_nan (0.5 * PrimFloat.sqrt (n0 * n0 + n1 * n1 + n2 * n2)) = true)
      by (apply half_nan, sqrt_nan, add_nan_r, square_nan, E2).
    split; [apply is_nan_not_ltb | apply is_nan_not_leb]; exact Hn.
  - assert (Hp : (0 <=? 0.5 * PrimFloat.sqrt (n0 * n0 + n1 * n1 + n2 * n2)) = true)
      by (apply half_nonneg, sqrt_nonneg, add_nonneg;
          [apply add_nonneg |]; apply square_nonneg; assumption).
    split; [apply leb_0_not_ltb |]; exact Hp.
Qed.

(** The norm test of [mappedElementArea] succeeds on a zero vector, whatever
    the signs of its zeros are. *)
Lemma norm_test_zero (a : array3 float) :
  Vec3F64.is_zero a = true -> (Vec3F64.magnitude a =? 0) = true.
Proof.
  destruct a as [a0 a1 a2]. unfold Vec3F64.is_zero. simpl. intros H.
  apply andb_prop in H as [H H2]. apply andb_prop in H as [H0 H1].
  destruct (eqb_0_inv a0 H0) as [-> | ->], (eqb_0_inv a1 H1) as [-> | ->],
    (eqb_0_inv a2 H2) as [-> | ->]; reflexivity.
Qed.

(** C2. For an element [e] of the mesh whose corners are nodes of the mesh,
    [elementArea(e)] is [0.5 * sqrt(n.n)] evaluated in binary64, [n] being
    the cross product of the edge vectors [b-c] and [c-a] of the corners'
    sphere positions [x] as computed in binary64. The returned value is
    never below 0; it is [>= 0] exactly when no component of the computed
    [n] is NaN, and NaN otherwise. *)
Theorem elementArea_rounded_half_cross_product g e el na nb nc :
  elements g !! e = Some el ->
  nodes g !! at0 (SphericalTriGrid.corners el) = Some na ->
  nodes g !! at1 (SphericalTriGrid.corners el) = Some nb ->
  nodes g !! at2 (SphericalTriGrid.corners el) = Some nc ->
  exists area,
    elementArea g e = Some area /\
    area = 0.5 * Vec3F64.magnitude
                   (Vec3F64.cross (Vec3F64.sub (x nb) (x nc))
                                  (Vec3F64.sub (x nc) (x na))) /\
    (area <? 0) = false /\
    (0 <=? area)
    = negb (Vec3F64.has_nan (Vec3F64.cross (Vec3F64.sub (x nb) (x nc))
                                           (Vec3F64.sub (x nc) (x na)))).
Proof.
  intros He Ha Hb Hc. eexists. split; [| split; [reflexivity |]].
  - unfold elementArea.
    rewrite He; simpl. rewrite Ha; simpl. rewrite Hb; simpl. rewrite Hc; simpl.
    reflexivity.
  - apply half_magnitude_sign.
Qed.

(** C1. For an element [e] of the mesh whose corners are nodes of the mesh,
    [mappedElementArea(e)] is 0 when the binary64 norm
    [sqrt(p[0]*p[0] + p[1]*p[1] + p[2]*p[2])] of the mapped position [p] of
    one of the three corners compares equal to 0, which is the case whenever
    a mapped position is the zero vector; when no norm compares equal to 0
    it is [0.5 * sqrt(n.n)] evaluated in binary64, [n] being the cross
    product of the edge vectors [b-c] and [c-a] of the mapped positions as
    computed in binary64. *)
Theorem mappedElementArea_zero_norm_or_half_cross_product g e el na nb nc :
  elements g !! e = Some el ->
  nodes g !! at0 (SphericalTriGrid.corners el) = Some na ->
  nodes g !! at1 (SphericalTriGrid.corners el) = Some nb ->
  nodes g !! at2 (SphericalTriGrid.corners el) = Some nc ->
  (Vec3F64.is_zero (xMapped na) || Vec3F64.is_zero (xMapped nb)
   || Vec3F64.is_zero (xMapped nc) = true ->
   mappedElementArea g e = Some 0) /\
  ((Vec3F64.magnitude (xMapped na) =? 0) || (Vec3F64.magnitude (xMapped nb) =? 0)
   || (Vec3F64.magnitude (xMapped nc) =? 0) = true ->
   mappedElementArea g e = Some 0) /\
  ((Vec3F64.magnitude (xMapped na) =? 0) || (Vec3F64.magnitude (xMapped nb) =? 0)
   || (Vec3F64.magnitude (xMapped nc) =? 0) = false ->
   mappedElementArea g e
   = Some (0.5 * Vec3F64.magnitude
                   (Vec3F64.cross (Vec3F64.sub (xMapped nb) (xMapped nc))
                                  (Vec3F64.sub (xMapped nc) (xMapped na))))).
Proof.
  intros He Ha Hb Hc.
  assert (Hcode : mappedElementArea g e
                  = if (Vec3F64.magnitude (xMapped na) =? 0)
                       || (Vec3F64.magnitude (xMapped nb) =? 0)
                       || (Vec3F64.magnitude (xMapped nc) =? 0)
                    then Some 0
                    else Some (0.5 * Vec3F64.magnitude
                                 (Vec3F64.cross (Vec3F64.sub (xMapped nb) (xMapped nc))
                                                (Vec3F64.sub (xMapped nc) (xMapped na))))).
  { unfold mappedElementArea.
    rewrite He; simpl. rewrite Ha; simpl. rewrite Hb; simpl. rewrite Hc; simpl.
    reflexivity. }
  rewrite Hcode. split; [| split].
  - intros Hz.
    apply orb_prop in Hz as [Hz | Hz]; [apply orb_prop in Hz as [Hz | Hz] |];
      rewrite (norm_test_zero _ Hz); rewrite ?orb_true_r; reflexivity.
  - intros ->. reflexivity.
  - intros ->. reflexivity.
Qed.

(** The right-angled triangle with legs 1 has the area 0.5. *)
Lemma elementArea_rounded_half_cross_product_witness :
  exists area,
    elementArea Triangle.right_angled 0 = Some area /\ area = 0.5 /\
    (area <? 0) = false /\ (0 <=? area) = true.
Proof.
  destruct (elementArea_rounded_half_cross_product Triangle.right_angled 0
              (SphericalTriGrid.mkElement 0 (Array3 0 1 2)%nat)
              (Triangle.node (Array3 0 0 0) (Array3 0 0 0))
              (Triangle.node (Array3 1 0 0) (Array3 2 0 0))
              (Triangle.node (Array3 0 1 0) (Array3 0 2 0))
              eq_refl eq_refl eq_refl eq_refl) as (area & Harea & Hval & Hlt & Hle).
  exists area. split; [exact Harea |]. split; [rewrite Hval; reflexivity |].
  split; [exact Hlt |]. rewrite Hle. reflexivity.
Defined.

(** Corner 0 of the right-angled triangle is not mapped. *)
Lemma mappedElementArea_zero_norm_or_half_cross_product_witness :
  mappedElementArea Triangle.right_angled 0 = Some 0.
Proof.
  apply (mappedElementArea_zero_norm_or_half_cross_product Triangle.right_angled 0
           (SphericalTriGrid.mkElement 0 (Array3 0 1 2)%nat)
           (Triangle.node (Array3 0 0 0) (Array3 0 0 0))
           (Triangle.node (Array3 1 0 0) (Array3 2 0 0))
           (Triangle.node (Array3 0 1 0) (Array3 0 2 0))
           eq_refl eq_refl eq_refl eq_refl).
  reflexivity.
Defined.

(** [elementArea] of three finite corners on one line, at distances of
    [2^600]: the returned value is NaN, for which [0 <= area] is false (the
    triangle has the area 0). *)
Lemma elementArea_nan_for_finite_corners :
  forallb (fun n => is_finite (at0 (x n)) && is_finite (at1 (x n)) && is_finite (at2 (x n)))
          (nodes Triangle.far_collinear) = true /\
  exists area,
    elementArea Triangle.far_collinear 0 = Some area /\
    is_nan area = true /\ (0 <=? area) = false.
Proof. split; [reflexivity |]. eexists. repeat split; reflexivity. Qed.

(** [mappedElementArea] of a triangle none of whose corners is mapped to the
    zero vector: the square of [2^-600] underflows to 0, the returned value
    is 0, and half the length of the cross product is 0.5. *)
Lemma mappedElementArea_zero_without_zero_corner :
  forallb (fun n => negb (Vec3F64.is_zero (xMapped n))) (nodes Triangle.tiny_corner) = true /\
  mappedElementArea Triangle.tiny_corner 0 = Some 0 /\
  0.5 * Vec3F64.magnitude
          (Vec3F64.cross (Vec3F64.sub (Array3 1 0 0) (Array3 0 1 0))
                         (Vec3F64.sub (Array3 0 1 0) (Array3 0x1p-600 0 0))) = 0.5.
Proof. repeat split; reflexivity. Qed.
End GeometryKernelBinary64.

(** ** sysboundary/ionosphere.h: the dependency graph *)

Section DependencyGraph.
Import SphericalTriGrid.
Local Open Scope R_scope.

Lemma lookup_set_nodes_insert g node1 n' i m :
  nodes (set_nodes g (<[node1 := n']> (nodes g))) !! i = Some m ->
  (i = node1 /\ m = n') \/ nodes g !! i = Some m.
Proof.
  simpl. intros H.
  destruct (decide (i = node1)) as [-> | Hne].
  - left. split; [reflexivity |].
    destruct (decide (node1 < length (nodes g))%nat) as [Hlt | Hge].
    + rewrite list_lookup_insert_eq in H by exact Hlt. congruence.
    + rewrite list_insert_ge in H by lia.
      apply lookup_lt_Some in H. lia.
  - right. rewrite list_lookup_insert_ne in H by congruence. exact H.
Qed.

(** What a successful call does to the node [node1]. *)
Lemma addMatrixDependency_cases g node1 node2 coeff transposed g' n :
  nodes g !! node1 = Some n ->
  addMatrixDependency g node1 node2 coeff transposed = Some g' ->
  (exists i c cT,
      list_find (λ d, d = node2) (take (numDepNodes n) (dependingNodes n))
        = Some (i, node2) /\
      dependingCoeffs n !! i = Some c /\ transposedCoeffs n !! i = Some cT /\
      g' = set_nodes g
             (<[node1 := set_dependencies n (numDepNodes n) (dependingNodes n)
                           (<[i := if transposed then c else c + coeff]> (dependingCoeffs n))
                           (<[i := if transposed then cT + coeff else cT]> (transposedCoeffs n))]>
                (nodes g)))
  \/
  (list_find (λ d, d = node2) (take (numDepNodes n) (dependingNodes n)) = None /\
   (numDepNodes n < length (dependingNodes n) /\
    numDepNodes n < length (dependingCoeffs n) /\
    numDepNodes n < length (transposedCoeffs n))%nat /\
   g' = set_nodes g
          (<[node1 := set_dependencies n (S (numDepNodes n))
                        (<[numDepNodes n := node2]> (dependingNodes n))
                        (<[numDepNodes n := if transposed then 0 else coeff]> (dependingCoeffs n))
                        (<[numDepNodes n := if transposed then coeff else 0]> (transposedCoeffs n))]>
             (nodes g))).
Proof.
  intros Hn H. unfold addMatrixDependency in H. rewrite Hn in H. simpl in H.
  destruct (list_find _ _) as [[i d] |] eqn:Hfind.
  - left.
    assert (d = node2) as -> by (apply list_find_Some in Hfind; tauto).
    destruct (dependingCoeffs n !! i) as [c |] eqn:Hc; simpl in H; [| discriminate].
    destruct (transposedCoeffs n !! i) as [cT |] eqn:HcT; simpl in H; [| discriminate].
    injection H as <-. exists i, c, cT. auto.
  - right. destruct (decide _) as [Hcap | Hcap]; [| discriminate].
    injection H as <-. auto.
Qed.

Lemma addMatrixDependency_distinct g node1 node2 coeff transposed g' :
  dependencies_distinct g ->
  addMatrixDependency g node1 node2 coeff transposed = Some g' ->
  dependencies_distinct g'.
Proof.
  intros Hd Hcall.
  destruct (nodes g !! node1) as [n |] eqn:Hn;
    [| unfold addMatrixDependency in Hcall; rewrite Hn in Hcall; discriminate].
  destruct (addMatrixDependency_cases _ _ _ _ _ _ _ Hn Hcall)
    as [(i & c & cT & Hfind & Hc & HcT & ->) | (Hfind & Hcap & ->)];
    intros j m Hm; apply lookup_set_nodes_insert in Hm;
    destruct Hm as [[-> ->] | Hm]; try (eapply Hd; eassumption).
  - simpl. eapply Hd; eassumption.
  - simpl.
    destruct (lookup_lt_is_Some_2 (<[numDepNodes n := node2]> (dependingNodes n))
                (numDepNodes n)) as [v Hv].
    { rewrite length_insert. lia. }
    rewrite (take_S_r _ _ _ Hv).
    rewrite list_lookup_insert_eq in Hv by lia. injection Hv as <-.
    rewrite take_insert_ge by lia.
    apply NoDup_app. split; [eapply Hd; eassumption |].
    split; [| apply NoDup_singleton].
    intros y Hy Hy'. apply list_elem_of_singleton in Hy'. subst y.
    apply list_find_None in Hfind.
    rewrite Forall_forall in Hfind. exact (Hfind _ Hy eq_refl).
Qed.

Lemma addMatrixDependency_within_capacity g node1 node2 coeff transposed g' :
  dependencies_within_capacity g ->
  addMatrixDependency g node1 node2 coeff transposed = Some g' ->
  dependencies_within_capacity g'.
Proof.
  intros Hd Hcall.
  destruct (nodes g !! node1) as [n |] eqn:Hn;
    [| unfold addMatrixDependency in Hcall; rewrite Hn in Hcall; discriminate].
  destruct (addMatrixDependency_cases _ _ _ _ _ _ _ Hn Hcall)
    as [(i & c & cT & Hfind & Hc & HcT & ->) | (Hfind & Hcap & ->)];
    intros j m Hm; apply lookup_set_nodes_insert in Hm;
    destruct Hm as [[-> ->] | Hm]; try (eapply Hd; eassumption).
  - simpl. rewrite !length_insert. eapply Hd; eassumption.
  - simpl. rewrite !length_insert. lia.
Qed.

Lemma dependencies_added_invariant g0 g :
  (forall i n, nodes g0 !! i = Some n -> numDepNodes n = 0%nat) ->
  dependencies_added g0 g ->
  dependencies_distinct g /\ dependencies_within_capacity g.
Proof.
  intros Hzero Hreach. induction Hreach as [| g n1 n2 c tr g' _ [IHd IHc] Hcall].
  - split; intros i n Hn; rewrite (Hzero _ _ Hn); simpl.
    + apply NoDup_nil_2.
    + lia.
  - split.
    + eapply addMatrixDependency_distinct; eassumption.
    + eapply addMatrixDependency_within_capacity; eassumption.
Qed.

(** Adding a coefficient for a target that is already in the list. *)
Lemma addMatrixDependency_existing g node1 node2 coeff n i :
  dependencies_distinct g ->
  dependencies_within_capacity g ->
  nodes g !! node1 = Some n ->
  (i < numDepNodes n)%nat ->
  dependingNodes n !! i = Some node2 ->
  exists g' n' c,
    addMatrixDependency g node1 node2 coeff false = Some g' /\
    nodes g' !! node1 = Some n' /\
    numDepNodes n' = numDepNodes n /\
    dependingNodes n' = dependingNodes n /\
    dependingCoeffs n !! i = Some c /\
    dependingCoeffs n' !! i = Some (c + coeff) /\
    transposedCoeffs n' = transposedCoeffs n.
Proof.
  intros Hd Hcap Hn Hi Hdep.
  destruct (Hcap _ _ Hn) as (L1 & L2 & L3).
  assert (Htake : take (numDepNodes n) (dependingNodes n) !! i = Some node2).
  { rewrite lookup_take_lt by lia. exact Hdep. }
  destruct (list_find_elem_of (λ d, d = node2)
              (take (numDepNodes n) (dependingNodes n)) node2) as [[i0 d] Hfind].
  { eapply list_elem_of_lookup_2. exact Htake. }
  { reflexivity. }
  pose proof Hfind as Hfind'.
  apply list_find_Some in Hfind' as (Hi0 & -> & _).
  assert (i0 = i) as ->.
  { eapply NoDup_lookup; [eapply Hd; exact Hn | exact Hi0 | exact Htake]. }
  destruct (lookup_lt_is_Some_2 (dependingCoeffs n) i ltac:(lia)) as [c Hc].
  destruct (lookup_lt_is_Some_2 (transposedCoeffs n) i ltac:(lia)) as [cT HcT].
  eexists _, _, c.
  split.
  { unfold addMatrixDependency. rewrite Hn. simpl. rewrite Hfind.
    rewrite Hc. simpl. rewrite HcT. simpl. reflexivity. }
  simpl. split.
  { apply list_lookup_insert_eq. eapply lookup_lt_Some. exact Hn. }
  simpl. split; [reflexivity |]. split; [reflexivity |]. split; [exact Hc |].
  split.
  { apply list_lookup_insert_eq. lia. }
  apply list_insert_id. exact HcT.
Qed.
(** C5. In a dependency graph built by calls of [addMatrixDependency] from
    nodes without dependencies, no node has a target twice among the first
    [numDepNodes] entries of [dependingNodes]; and a call
    [addMatrixDependency(node1, node2, coeff)] for a target [node2] that
    [node1] already depends on adds [coeff] to the coefficient stored for
    that pair and appends nothing. *)
Theorem dependencies_distinct_and_accumulate g0 g :
  (forall i n, nodes g0 !! i = Some n -> numDepNodes n = 0%nat) ->
  dependencies_added g0 g ->
  dependencies_distinct g /\
  forall node1 node2 coeff n i,
    nodes g !! node1 = Some n ->
    (i < numDepNodes n)%nat ->
    dependingNodes n !! i = Some node2 ->
    exists g' n' c,
      addMatrixDependency g node1 node2 coeff false = Some g' /\
      nodes g' !! node1 = Some n' /\
      numDepNodes n' = numDepNodes n /\
      dependingNodes n' = dependingNodes n /\
      dependingCoeffs n !! i = Some c /\
      dependingCoeffs n' !! i = Some (c + coeff) /\
      transposedCoeffs n' = transposedCoeffs n.
Proof.
  intros Hzero Hreach.
  destruct (dependencies_added_invariant g0 g Hzero Hreach) as [Hd Hcap].
  split; [exact Hd |].
  intros node1 node2 coeff n i Hn Hi Hdep.
  eapply addMatrixDependency_existing; eassumption.
Qed.

(** Node 0 of the base tetrahedron receives the coefficient 3 for node 1. *)
Lemma dependencies_distinct_and_accumulate_witness :
  exists g,
    addMatrixDependency Tetrahedron.grid 0 1 3 false = Some g /\
    dependencies_distinct g /\
    exists g' n' c,
      addMatrixDependency g 0 1 4 false = Some g' /\
      nodes g' !! 0%nat = Some n' /\
      numDepNodes n' = 1%nat /\
      dependingNodes n' = 1%nat :: replicate 9 0%nat /\
      c = 3 /\
      dependingCoeffs n' !! 0%nat = Some (c + 4).
Proof.
  eexists. split; [reflexivity |].
  match goal with
  | |- dependencies_distinct ?g /\ _ =>
      assert (Hreach : dependencies_added Tetrahedron.grid g)
        by (apply (dependencies_added_call _ Tetrahedron.grid 0%nat 1%nat 3 false);
            [apply dependencies_added_none | reflexivity]);
      assert (Hzero : forall i n, nodes Tetrahedron.grid !! i = Some n ->
                                  numDepNodes n = 0%nat)
  end.
  { intros [| [| [| [| i]]]] n Hn; simpl in Hn; try discriminate;
      injection Hn as <-; reflexivity. }
  destruct (dependencies_distinct_and_accumulate _ _ Hzero Hreach) as [Hd Hacc].
  split; [exact Hd |].
  destruct (Hacc 0%nat 1%nat 4 _ 0%nat eq_refl ltac:(simpl; lia) eq_refl)
    as (g' & n' & c & Hcall & Hn' & Hnum & Hdeps & Hc & Hc' & _).
  exists g', n', c.
  simpl in Hc. injection Hc as <-.
  repeat split; assumption || reflexivity.
Defined.
(** With dependency arrays of [MAX_DEPENDING_NODES] entries, the insertion
    check of the modelled [addMatrixDependency] keeps [numDepNodes] within
    [MAX_DEPENDING_NODES]. *)
Lemma dependencies_added_bounded g0 g :
  (forall i n, nodes g0 !! i = Some n ->
               numDepNodes n = 0%nat /\ length (dependingNodes n) = MAX_DEPENDING_NODES) ->
  dependencies_added g0 g ->
  forall i n, nodes g !! i = Some n ->
              (numDepNodes n <= MAX_DEPENDING_NODES)%nat /\
              length (dependingNodes n) = MAX_DEPENDING_NODES.
Proof.
  intros Hzero Hreach.
  induction Hreach as [| g n1 n2 c tr g' _ IH Hcall]; intros i n Hn.
  - destruct (Hzero _ _ Hn) as [-> ->]. split; [lia | reflexivity].
  - destruct (nodes g !! n1) as [m |] eqn:Hm;
      [| unfold addMatrixDependency in Hcall; rewrite Hm in Hcall; discriminate].
    destruct (IH _ _ Hm) as [Hle Hlen].
    destruct (addMatrixDependency_cases _ _ _ _ _ _ _ Hm Hcall)
      as [(j & c0 & cT & _ & _ & _ & ->) | (_ & Hcap & ->)];
      apply lookup_set_nodes_insert in Hn;
      destruct Hn as [[-> ->] | Hn]; try (eapply IH; eassumption); simpl.
    + split; assumption.
    + rewrite length_insert. split; [lia | assumption].
Qed.
End DependencyGraph.

(** ** sysboundary/ionosphere.h: balancing the field-aligned currents *)

Section OffsetFAC.
Import SphericalTriGrid.
Local Open Scope R_scope.

Variable SOURCE : nat.

(** Changing node parameters leaves the geometry alone. *)
Section ParametersOnly.
Variable update : list R -> list R.




End ParametersOnly.







End OffsetFAC.


(** ** sysboundary/ionosphere.h: the iteration of the solver *)

Section Solve.
Import SphericalTriGrid.
Local Open Scope R_scope.

Variable cgIteration : t -> t.
Variable relativeResidual : t -> R.
Variable tolerance : R.

Lemma solve_loop_spec (remaining : nat) :
  forall g iteration,
    exists k report,
      solve_loop cgIteration relativeResidual tolerance g iteration remaining
        = (Nat.iter k cgIteration g, (iteration + k)%nat, report) /\
      (k <= remaining)%nat /\
      (forall i, (i < k)%nat -> ~ relativeResidual (Nat.iter i cgIteration g) < tolerance) /\
      ((report = Converged /\ relativeResidual (Nat.iter k cgIteration g) < tolerance) \/
       (report = IterationCapReached /\ k = remaining /\
        ~ relativeResidual (Nat.iter k cgIteration g) < tolerance)).
Proof.
  induction remaining as [| r IH]; intros g iteration; simpl.
  - destruct (Rlt_dec (relativeResidual g) tolerance) as [Hlt | Hge].
    + exists 0%nat, Converged. simpl. rewrite Nat.add_0_r.
      split; [reflexivity |]. split; [lia |]. split; [intros; lia |]. left; auto.
    + exists 0%nat, IterationCapReached. simpl. rewrite Nat.add_0_r.
      split; [reflexivity |]. split; [lia |]. split; [intros; lia |]. right; auto.
  - destruct (Rlt_dec (relativeResidual g) tolerance) as [Hlt | Hge].
    + exists 0%nat, Converged. simpl. rewrite Nat.add_0_r.
      split; [reflexivity |]. split; [lia |]. split; [intros; lia |]. left; auto.
    + destruct (IH (cgIteration g) (S iteration)) as (k & report & Heq & Hk & Hbefore & Hend).
      exists (S k), report.
      rewrite !Nat.iter_succ_r.
      split; [rewrite Heq; f_equal; f_equal; lia |].
      split; [lia |].
      split.
      * intros [| i] Hi; [exact Hge |].
        rewrite Nat.iter_succ_r. apply Hbefore. lia.
      * destruct Hend as [[-> Hc] | (-> & -> & Hc)]; [left | right]; auto.
Qed.

(** C6. [solve] iterates from the initial grid and stops at the first iterate
    whose relative residual is below the tolerance, or after
    [solverMaxIterations] iterations if there is none. It always returns:
    with the report [Converged] when the residual of the returned iterate is
    below the tolerance, and otherwise, the cap being reached, with the
    distinct report [IterationCapReached]; in both cases the returned grid is
    the last iterate. *)
Theorem solve_stops_at_tolerance_or_cap (solverMaxIterations : Z) (g : t) :
  exists k report,
    solve cgIteration relativeResidual tolerance solverMaxIterations g
      = (Nat.iter k cgIteration g, k, report) /\
    (Z.of_nat k <= Z.max 0 solverMaxIterations)%Z /\
    (forall i, (i < k)%nat -> ~ relativeResidual (Nat.iter i cgIteration g) < tolerance) /\
    ((report = Converged /\ relativeResidual (Nat.iter k cgIteration g) < tolerance) \/
     (report = IterationCapReached /\ Z.of_nat k = Z.max 0 solverMaxIterations /\
      ~ relativeResidual (Nat.iter k cgIteration g) < tolerance)).
Proof.
  unfold solve.
  destruct (solve_loop_spec (Z.to_nat solverMaxIterations) g 0%nat)
    as (k & report & Heq & Hk & Hbefore & Hend).
  exists k, report. simpl in Heq.
  split; [exact Heq |]. split; [lia |]. split; [exact Hbefore |].
  destruct Hend as [[-> Hc] | (-> & -> & Hc)]; [left | right]; auto.
  split; [reflexivity |]. split; [lia | exact Hc].
Qed.
End Solve.

(** ** velocity_block_container.h *)

Section BlockContainer.
Import VelocityBlockContainer.
Local Open Scope Z_scope.

(** C10. [pop()] on a container without blocks changes nothing; on a
    container with blocks it lowers the number of blocks by exactly one and
    leaves the capacity, the block data and the parameters as they were. *)
Theorem pop_effect (c : t) :
  (numberOfBlocks c = 0 -> pop c = c) /\
  (numberOfBlocks c <> 0 -> U32.in_range (numberOfBlocks c) ->
   numberOfBlocks (pop c) = numberOfBlocks c - 1 /\
   currentCapacity (pop c) = currentCapacity c /\
   block_data (pop c) = block_data c /\
   parameters (pop c) = parameters c).
Proof.
  unfold pop. split.
  - intros ->. reflexivity.
  - intros Hne Hrange.
    destruct (Z.eqb_spec (numberOfBlocks c) 0) as [He | _]; [contradiction |].
    simpl. repeat split.
    unfold U32.sub. apply U32_wrap_small.
    unfold U32.in_range in *. lia.
Qed.

Lemma pop_effect_witness :
  pop empty = empty /\
  numberOfBlocks (pop (Container 4 2 (replicate 8 0%R) (replicate 4 0%R))) = 1.
Proof.
  split.
  - apply (pop_effect empty). reflexivity.
  - apply (pop_effect (Container 4 2 (replicate 8 0%R) (replicate 4 0%R))).
    + simpl. discriminate.
    + unfold U32.in_range, U32.modulus. simpl. lia.
Defined.

(** The copy loop succeeds when the copied range lies within both vectors;
    it then overwrites exactly that range of the destination. *)
Lemma copy_loop_spec (src : list R) (count : nat) :
  forall (i : nat) (dst : list R),
    (i + count <= length src)%nat ->
    (i + count <= length dst)%nat ->
    exists dst',
      copy_loop src dst i count = Some dst' /\
      length dst' = length dst /\
      (forall j, (i <= j < i + count)%nat -> dst' !! j = src !! j) /\
      (forall j, (j < i \/ i + count <= j)%nat -> dst' !! j = dst !! j).
Proof.
  induction count as [| k IH]; intros i dst Hsrc Hdst; simpl.
  - exists dst. split; [reflexivity |]. split; [reflexivity |].
    split; [intros; lia | intros; reflexivity].
  - destruct (lookup_lt_is_Some_2 src i ltac:(lia)) as [v Hv].
    rewrite Hv. simpl.
    destruct (decide (i < length dst)%nat) as [_ | Hn]; [| lia].
    destruct (IH (S i) (<[i := v]> dst)) as (dst' & Heq & Hlen & Hin & Hout).
    { lia. }
    { rewrite length_insert. lia. }
    exists dst'. split; [exact Heq |].
    rewrite length_insert in Hlen. split; [exact Hlen |]. split.
    + intros j Hj. destruct (decide (j = i)) as [-> | Hne].
      * rewrite Hout by lia. rewrite list_lookup_insert_eq by lia. congruence.
      * apply Hin. lia.
    + intros j Hj. rewrite Hout by lia.
      apply list_lookup_insert_ne. lia.
Qed.
Section RecapacitateEffect.
Variable WID3 : Z.
Variable N_VELOCITY_BLOCK_PARAMS : Z.
Hypothesis WID3_nonneg : 0 <= WID3.
Hypothesis N_VELOCITY_BLOCK_PARAMS_nonneg : 0 <= N_VELOCITY_BLOCK_PARAMS.

Lemma recapacitate_copy (src : list R) (blocks newCapacity width : Z) :
  0 <= width -> 0 <= blocks <= newCapacity ->
  newCapacity * width < U32.modulus ->
  blocks * width <= Z.of_nat (length src) ->
  exists dst',
    copy_loop src (replicate (Z.to_nat (U32.mul newCapacity width)) 0%R) 0
      (Z.to_nat (U32.mul blocks width)) = Some dst' /\
    Z.of_nat (length dst') = newCapacity * width /\
    (forall j, Z.of_nat j < blocks * width -> dst' !! j = src !! j).
Proof.
  intros Hw Hb Hfit Hsrc.
  assert (Hnew : U32.mul newCapacity width = newCapacity * width).
  { apply U32_wrap_small. unfold U32.in_range. nia. }
  assert (Hold : U32.mul blocks width = blocks * width).
  { apply U32_wrap_small. unfold U32.in_range. nia. }
  rewrite Hnew, Hold.
  destruct (copy_loop_spec src (Z.to_nat (blocks * width)) 0
              (replicate (Z.to_nat (newCapacity * width)) 0%R))
    as (dst' & Heq & Hlen & Hin & _).
  { lia. }
  { rewrite length_replicate. nia. }
  exists dst'. split; [exact Heq |].
  rewrite length_replicate in Hlen. split; [nia |].
  intros j Hj. apply Hin. lia.
Qed.

(** C8, as amended. [recapacitate(c)] returns [false] and changes nothing
    when [c] is below the number of blocks. Otherwise, provided
    [c*WID3] and [c*N_VELOCITY_BLOCK_PARAMS] fit in 32 bits (and the vectors
    hold the blocks the container counts), it returns [true], sets the
    capacity to [c], keeps the number of blocks and keeps every element of
    the data and the parameters of the existing blocks. *)
Theorem recapacitate_effect (c : t) (newCapacity : Z) :
  (newCapacity < numberOfBlocks c ->
   recapacitate WID3 N_VELOCITY_BLOCK_PARAMS c newCapacity = Some (false, c)) /\
  (0 <= numberOfBlocks c <= newCapacity ->
   newCapacity * WID3 < U32.modulus ->
   newCapacity * N_VELOCITY_BLOCK_PARAMS < U32.modulus ->
   blocks_allocated WID3 N_VELOCITY_BLOCK_PARAMS c ->
   exists c',
     recapacitate WID3 N_VELOCITY_BLOCK_PARAMS c newCapacity = Some (true, c') /\
     currentCapacity c' = newCapacity /\
     numberOfBlocks c' = numberOfBlocks c /\
     (forall j, Z.of_nat j < numberOfBlocks c * WID3 ->
                block_data c' !! j = block_data c !! j) /\
     (forall j, Z.of_nat j < numberOfBlocks c * N_VELOCITY_BLOCK_PARAMS ->
                parameters c' !! j = parameters c !! j)).
Proof.
  unfold recapacitate. split.
  - intros Hlt. destruct (Z.ltb_spec newCapacity (numberOfBlocks c)); [reflexivity | lia].
  - intros Hn HfitD HfitP [HallocD HallocP].
    destruct (Z.ltb_spec newCapacity (numberOfBlocks c)) as [Hlt | _]; [lia |].
    destruct (recapacitate_copy (block_data c) (numberOfBlocks c) newCapacity WID3
                WID3_nonneg Hn HfitD HallocD) as (d' & Hd & _ & HdIn).
    destruct (recapacitate_copy (parameters c) (numberOfBlocks c) newCapacity
                N_VELOCITY_BLOCK_PARAMS N_VELOCITY_BLOCK_PARAMS_nonneg Hn HfitP HallocP)
      as (p' & Hp & _ & HpIn).
    rewrite Hd. simpl. rewrite Hp. simpl.
    eexists. split; [reflexivity |]. simpl. auto.
Qed.
(** [blocks_allocated] holds of the empty container and is kept by [pop] and
    by a successful [recapacitate]. *)
Lemma blocks_allocated_empty :
  blocks_allocated WID3 N_VELOCITY_BLOCK_PARAMS empty.
Proof. unfold blocks_allocated. simpl. lia. Qed.

Lemma blocks_allocated_pop (c : t) :
  U32.in_range (numberOfBlocks c) ->
  blocks_allocated WID3 N_VELOCITY_BLOCK_PARAMS c ->
  blocks_allocated WID3 N_VELOCITY_BLOCK_PARAMS (pop c).
Proof.
  intros Hrange [Hd Hp]. unfold pop.
  destruct (Z.eqb_spec (numberOfBlocks c) 0) as [He | Hne]; [split; assumption |].
  unfold blocks_allocated. simpl.
  assert (U32.sub (numberOfBlocks c) 1 = numberOfBlocks c - 1) as ->.
  { apply U32_wrap_small. unfold U32.in_range in *. lia. }
  split; nia.
Qed.

Lemma blocks_allocated_recapacitate (c c' : t) (newCapacity : Z) :
  0 <= numberOfBlocks c <= newCapacity ->
  newCapacity * WID3 < U32.modulus ->
  newCapacity * N_VELOCITY_BLOCK_PARAMS < U32.modulus ->
  blocks_allocated WID3 N_VELOCITY_BLOCK_PARAMS c ->
  recapacitate WID3 N_VELOCITY_BLOCK_PARAMS c newCapacity = Some (true, c') ->
  blocks_allocated WID3 N_VELOCITY_BLOCK_PARAMS c' /\
  Z.of_nat (length (block_data c')) = newCapacity * WID3 /\
  Z.of_nat (length (parameters c')) = newCapacity * N_VELOCITY_BLOCK_PARAMS.
Proof.
  intros Hn HfitD HfitP [HallocD HallocP] Hr. unfold recapacitate in Hr.
  destruct (Z.ltb_spec newCapacity (numberOfBlocks c)) as [Hlt | _]; [lia |].
  destruct (recapacitate_copy (block_data c) (numberOfBlocks c) newCapacity WID3
              WID3_nonneg Hn HfitD HallocD) as (d' & Hd & HdLen & _).
  destruct (recapacitate_copy (parameters c) (numberOfBlocks c) newCapacity
              N_VELOCITY_BLOCK_PARAMS N_VELOCITY_BLOCK_PARAMS_nonneg Hn HfitP HallocP)
    as (p' & Hp & HpLen & _).
  rewrite Hd in Hr. simpl in Hr. rewrite Hp in Hr. simpl in Hr.
  injection Hr as <-. unfold blocks_allocated. simpl.
  split; [split; nia |]. split; assumption.
Qed.
End RecapacitateEffect.

(** A container of two blocks, with 4 cells and 2 parameters per block, is
    given room for three; and a request for one block is refused. *)
Lemma recapacitate_effect_witness :
  recapacitate 4 2 (Container 2 2 [1; 2; 3; 4; 5; 6; 7; 8]%R [1; 2; 3; 4]%R) 1
  = Some (false, Container 2 2 [1; 2; 3; 4; 5; 6; 7; 8]%R [1; 2; 3; 4]%R) /\
  exists c',
    recapacitate 4 2 (Container 2 2 [1; 2; 3; 4; 5; 6; 7; 8]%R [1; 2; 3; 4]%R) 3
    = Some (true, c') /\
    currentCapacity c' = 3 /\ numberOfBlocks c' = 2 /\
    block_data c' !! 7%nat = Some 8%R /\ parameters c' !! 3%nat = Some 4%R.
Proof.
  split.
  - apply (recapacitate_effect 4 2 ltac:(lia) ltac:(lia)
             (Container 2 2 [1; 2; 3; 4; 5; 6; 7; 8]%R [1; 2; 3; 4]%R) 1).
    simpl. lia.
  - destruct (proj2 (recapacitate_effect 4 2 ltac:(lia) ltac:(lia)
                       (Container 2 2 [1; 2; 3; 4; 5; 6; 7; 8]%R [1; 2; 3; 4]%R) 3))
      as (c' & Hr & Hcap & Hn & Hd & Hp).
    + simpl. lia.
    + unfold U32.modulus. lia.
    + unfold U32.modulus. lia.
    + unfold blocks_allocated. simpl. lia.
    + exists c'. split; [exact Hr |]. split; [exact Hcap |]. split; [exact Hn |].
      split; [apply (Hd 7%nat); simpl; lia | apply (Hp 3%nat); simpl; lia].
Defined.

(** The claim as written fails for a capacity whose element count wraps:
    with 64 cells per block, a container of one block asked for [2^26] blocks
    allocates [2^26 * 64 mod 2^32 = 0] cells and then copies the 64 cells of
    the existing block into the empty vector, outside its bounds. *)
Lemma recapacitate_overflow :
  blocks_allocated 64 6 (Container 1 1 (replicate 64 0%R) (replicate 6 0%R)) /\
  numberOfBlocks (Container 1 1 (replicate 64 0%R) (replicate 6 0%R)) <= 67108864 /\
  U32.in_range 67108864 /\
  U32.mul 67108864 64 = 0 /\
  recapacitate 64 6 (Container 1 1 (replicate 64 0%R) (replicate 6 0%R)) 67108864 = None.
Proof.
  split; [unfold blocks_allocated; simpl; lia |].
  split; [simpl; lia |].
  split; [unfold U32.in_range, U32.modulus; lia |].
  split; reflexivity.
Qed.
End BlockContainer.

(** ** velocity_mesh_old.h: block ids, indices and coordinates *)

Section VelocityMeshBlocks.
Import VelocityMesh.
Local Open Scope Z_scope.

(** The encoding of in-range indices lies below the number of blocks. *)
Lemma encode_bound (a b c i j k : Z) :
  0 <= i < a -> 0 <= j < b -> 0 <= k < c ->
  0 <= j * a /\ 0 <= k * a /\ 0 <= k * a * b /\ k * a <= k * a * b /\
  0 <= i + j * a + k * a * b < a * b * c.
Proof.
  intros Hi Hj Hk.
  assert (0 <= j * a) by (apply Z.mul_nonneg_nonneg; lia).
  assert (0 <= k * a) by (apply Z.mul_nonneg_nonneg; lia).
  assert (0 <= k * a * b) by (apply Z.mul_nonneg_nonneg; lia).
  assert (j * a <= (b - 1) * a) by (apply Z.mul_le_mono_nonneg_r; lia).
  assert (k * (a * b) <= (c - 1) * (a * b))
    by (apply Z.mul_le_mono_nonneg_r; [apply Z.mul_nonneg_nonneg |]; lia).
  assert (k * a <= k * a * b).
  { rewrite <- (Z.mul_1_r (k * a)) at 1. apply Z.mul_le_mono_nonneg_l; lia. }
  repeat split; lia.
Qed.

(** The encoding of in-range indices when no product wraps. *)
Lemma getGlobalID_in_range (m : t) (refLevel i j k : Z) :
  at0 (gridLength m) * at1 (gridLength m) * at2 (gridLength m) < U32.modulus ->
  0 <= i < at0 (gridLength m) ->
  0 <= j < at1 (gridLength m) ->
  0 <= k < at2 (gridLength m) ->
  getGlobalID m refLevel i j k
  = i + j * at0 (gridLength m) + k * at0 (gridLength m) * at1 (gridLength m).
Proof.
  destruct (gridLength m) as [a b c] eqn:Hgl. simpl.
  intros Hprod Hi Hj Hk. unfold getGlobalID. rewrite Hgl. simpl.
  destruct (Z.leb_spec a i); [lia |].
  destruct (Z.leb_spec b j); [lia |].
  destruct (Z.leb_spec c k); [lia |]. simpl.
  destruct (encode_bound a b c i j k) as (? & ? & ? & ? & ?); try lia.
  unfold U32.add, U32.mul.
  rewrite (U32_wrap_small (j * a)) by (unfold U32.in_range; lia).
  rewrite (U32_wrap_small (k * a)) by (unfold U32.in_range; lia).
  rewrite (U32_wrap_small (k * a * b)) by (unfold U32.in_range; lia).
  rewrite (U32_wrap_small (i + j * a)) by (unfold U32.in_range; lia).
  apply U32_wrap_small. unfold U32.in_range. lia.
Qed.

Lemma initialize_max_no_wrap ml gl bl m :
  initialize ml gl bl = Some (true, m) ->
  0 < at0 gl -> 0 < at1 gl -> 0 < at2 gl ->
  at0 gl * at1 gl * at2 gl < U32.modulus ->
  gridLength m = gl /\
  max_velocity_blocks m = at0 gl * at1 gl * at2 gl /\
  U32.mul (at0 gl) (at1 gl) = at0 gl * at1 gl.
Proof.
  intros Hinit Ha Hb Hc Hprod.
  destruct (initialize_fields _ _ _ _ Hinit) as [Hgl Hmax].
  destruct gl as [a b c]; simpl in *.
  assert (Hab : U32.mul a b = a * b).
  { apply U32_wrap_small. unfold U32.in_range. nia. }
  split; [exact Hgl |]. split; [| exact Hab].
  rewrite Hmax, Hab. apply U32_wrap_small. unfold U32.in_range. nia.
Qed.

Lemma decompose_unique (a b i j k : Z) :
  0 <= i < a -> 0 <= j < b -> 0 <= k ->
  (i + j * a + k * a * b) mod a = i /\
  ((i + j * a + k * a * b) / a) mod b = j /\
  (i + j * a + k * a * b) / (a * b) = k.
Proof.
  intros Hi Hj Hk.
  assert (E1 : i + j * a + k * a * b = i + (j + k * b) * a) by ring.
  assert (Hq : (i + j * a + k * a * b) / a = j + k * b).
  { rewrite E1, Z.div_add by lia. rewrite Z.div_small by lia. lia. }
  split; [| split].
  - rewrite E1, Z.mod_add by lia. apply Z.mod_small. lia.
  - rewrite Hq, Z.mod_add by lia. apply Z.mod_small. lia.
  - rewrite <- Z.div_div by lia. rewrite Hq, Z.div_add by lia.
    rewrite Z.div_small by lia. lia.
Qed.

Lemma getGlobalID_getIndices_roundtrip_aux ml gl bl m refLevel i j k :
  initialize ml gl bl = Some (true, m) ->
  at0 gl * at1 gl * at2 gl < U32.modulus ->
  0 <= i < at0 gl -> 0 <= j < at1 gl -> 0 <= k < at2 gl ->
  0 <= getGlobalID m refLevel i j k < max_velocity_blocks m /\
  getIndices m (getGlobalID m refLevel i j k) = Some (0, i, j, k).
Proof.
  intros Hinit Hprod Hi Hj Hk.
  destruct (initialize_max_no_wrap _ _ _ _ Hinit ltac:(lia) ltac:(lia) ltac:(lia) Hprod)
    as (Hgl & Hmax & Hab).
  destruct gl as [a b c]; simpl in *.
  rewrite getGlobalID_in_range by (rewrite Hgl; simpl; lia).
  rewrite Hgl. simpl.
  destruct (decompose_unique a b i j k Hi Hj ltac:(lia)) as (Di & Dj & Dk).
  destruct (encode_bound a b c i j k Hi Hj Hk) as (_ & _ & _ & _ & Hlt).
  split; [lia |].
  unfold getIndices. rewrite Hmax, Hgl. simpl.
  destruct (Z.leb_spec (a * b * c) (i + j * a + k * a * b)); [lia |].
  unfold U32.rem, U32.div. rewrite Hab.
  destruct (Z.eqb_spec a 0); [lia |]. simpl.
  destruct (Z.eqb_spec b 0); [lia |]. simpl.
  destruct (Z.eqb_spec (a * b) 0); [nia |].
  rewrite Di, Dj, Dk. reflexivity.
Qed.

(** X1. After [initialize] with grid lengths whose product fits in 32 bits,
    [getGlobalID] maps indices inside the grid to an id below
    [max_velocity_blocks], and [getIndices] gives back exactly these indices
    (with [refLevel] 0, whatever [refLevel] was passed in). *)
Theorem getGlobalID_getIndices_roundtrip ml gl bl m refLevel i j k :
  initialize ml gl bl = Some (true, m) ->
  at0 gl * at1 gl * at2 gl < U32.modulus ->
  0 <= i < at0 gl -> 0 <= j < at1 gl -> 0 <= k < at2 gl ->
  0 <= getGlobalID m refLevel i j k < max_velocity_blocks m /\
  getIndices m (getGlobalID m refLevel i j k) = Some (0, i, j, k).
Proof. apply getGlobalID_getIndices_roundtrip_aux. Qed.

Lemma getGlobalID_getIndices_roundtrip_witness :
  exists m,
    initialize [0; 3; 0; 2; 0; 2]%R (Array3 3 2 2) (Array3 4 4 4) = Some (true, m) /\
    0 <= getGlobalID m 5 1 0 1 < max_velocity_blocks m /\
    getIndices m (getGlobalID m 5 1 0 1) = Some (0, 1, 0, 1).
Proof.
  eexists. split; [reflexivity |].
  apply (getGlobalID_getIndices_roundtrip
           [0; 3; 0; 2; 0; 2]%R (Array3 3 2 2) (Array3 4 4 4)).
  - reflexivity.
  - reflexivity.
  - simpl; lia.
  - simpl; lia.
  - simpl; lia.
Defined.

(** X2. After [initialize] with grid lengths whose product fits in 32 bits,
    [getGlobalID] returns [error_velocity_block] exactly when one of the
    indices is outside the grid. *)
Theorem getGlobalID_error_iff_outside ml gl bl m refLevel i j k :
  initialize ml gl bl = Some (true, m) ->
  0 <= at0 gl -> 0 <= at1 gl -> 0 <= at2 gl ->
  at0 gl * at1 gl * at2 gl < U32.modulus ->
  0 <= i -> 0 <= j -> 0 <= k ->
  getGlobalID m refLevel i j k = error_velocity_block
  <-> (at0 gl <= i \/ at1 gl <= j \/ at2 gl <= k).
Proof.
  intros Hinit Ha Hb Hc Hprod Hi Hj Hk.
  destruct (initialize_fields _ _ _ _ Hinit) as [Hgl _].
  split.
  - intros Herr.
    destruct (Z.le_gt_cases (at0 gl) i) as [| Hi']; [auto |].
    destruct (Z.le_gt_cases (at1 gl) j) as [| Hj']; [auto |].
    destruct (Z.le_gt_cases (at2 gl) k) as [| Hk']; [auto |].
    exfalso.
    rewrite getGlobalID_in_range in Herr by (rewrite Hgl; lia).
    rewrite Hgl in Herr. unfold error_velocity_block in Herr.
    destruct gl as [a b c]; simpl in *. unfold U32.modulus in Hprod.
    destruct (encode_bound a b c i j k) as (_ & _ & _ & _ & Hlt); lia.
  - intros Hout. unfold getGlobalID. rewrite Hgl.
    destruct (Z.leb_spec (at0 gl) i); [reflexivity |].
    destruct (Z.leb_spec (at1 gl) j); [reflexivity |].
    destruct (Z.leb_spec (at2 gl) k); [reflexivity | lia].
Qed.

Lemma getGlobalID_error_iff_outside_witness :
  exists m,
    initialize [0; 3; 0; 2; 0; 2]%R (Array3 3 2 2) (Array3 4 4 4) = Some (true, m) /\
    getGlobalID m 0 1 2 0 = error_velocity_block.
Proof.
  eexists. split; [reflexivity |].
  apply (getGlobalID_error_iff_outside
           [0; 3; 0; 2; 0; 2]%R (Array3 3 2 2) (Array3 4 4 4));
    try reflexivity; simpl; lia.
Defined.
(** The decomposition of a valid id when no product wraps. *)
Lemma getIndices_valid ml gl bl m g :
  initialize ml gl bl = Some (true, m) ->
  0 <= at0 gl -> 0 <= at1 gl -> 0 <= at2 gl ->
  at0 gl * at1 gl * at2 gl < U32.modulus ->
  0 <= g < max_velocity_blocks m ->
  getIndices m g
  = Some (0, g mod at0 gl, (g / at0 gl) mod at1 gl, g / (at0 gl * at1 gl)) /\
  0 <= g mod at0 gl < at0 gl /\
  0 <= (g / at0 gl) mod at1 gl < at1 gl /\
  0 <= g / (at0 gl * at1 gl) < at2 gl.
Proof.
  intros Hinit H0 H1 H2 Hprod Hg.
  destruct (initialize_fields _ _ _ _ Hinit) as [Hgl Hmax0].
  rewrite Hmax0 in Hg.
  destruct (grid_positive _ _ _ g H0 H1 H2 Hg) as (Ha & Hb & Hc).
  destruct (initialize_max_no_wrap _ _ _ _ Hinit Ha Hb Hc Hprod) as (_ & Hmax & Hab).
  rewrite <- Hmax0, Hmax in Hg.
  destruct gl as [a b c]; simpl in *.
  assert (0 < a * b) by (apply Z.mul_pos_pos; lia).
  split.
  - unfold getIndices. rewrite Hmax, Hgl. simpl.
    destruct (Z.leb_spec (a * b * c) g); [lia |].
    unfold U32.rem, U32.div. rewrite Hab.
    destruct (Z.eqb_spec a 0); [lia |]. simpl.
    destruct (Z.eqb_spec b 0); [lia |]. simpl.
    destruct (Z.eqb_spec (a * b) 0); [lia | reflexivity].
  - split; [apply Z.mod_pos_bound; lia |].
    split; [apply Z.mod_pos_bound; lia |].
    split; [apply Z.div_pos; lia | apply Z.div_lt_upper_bound; lia].
Qed.

(** X3. After [initialize] with grid lengths whose product fits in 32 bits,
    the indices [getIndices] returns for an id below [max_velocity_blocks]
    all lie inside the grid. *)
Theorem getIndices_within_grid ml gl bl m g :
  initialize ml gl bl = Some (true, m) ->
  0 <= at0 gl -> 0 <= at1 gl -> 0 <= at2 gl ->
  at0 gl * at1 gl * at2 gl < U32.modulus ->
  0 <= g < max_velocity_blocks m ->
  exists i j k,
    getIndices m g = Some (0, i, j, k) /\
    0 <= i < at0 gl /\ 0 <= j < at1 gl /\ 0 <= k < at2 gl.
Proof.
  intros Hinit H0 H1 H2 Hprod Hg.
  destruct (getIndices_valid _ _ _ _ _ Hinit H0 H1 H2 Hprod Hg) as (E & Bi & Bj & Bk).
  eauto 10.
Qed.

Lemma getIndices_within_grid_witness :
  exists m,
    initialize [0; 3; 0; 2; 0; 2]%R (Array3 3 2 2) (Array3 4 4 4) = Some (true, m) /\
    exists i j k,
      getIndices m 11 = Some (0, i, j, k) /\ 0 <= i < 3 /\ 0 <= j < 2 /\ 0 <= k < 2.
Proof.
  eexists. split; [reflexivity |].
  apply (getIndices_within_grid [0; 3; 0; 2; 0; 2]%R (Array3 3 2 2) (Array3 4 4 4));
    try reflexivity; simpl; try lia.
  split; [lia | reflexivity].
Defined.

(** X4. [getIndices] gives the three error indices for every id that is not
    below [max_velocity_blocks], and [getGlobalID] turns these indices back
    into [error_velocity_block]: an invalid id stays invalid through
    decoding and encoding. *)
Theorem getIndices_invalid_stays_invalid (m : t) (g : Z) :
  at0 (gridLength m) <= 0xFFFFFFFF ->
  max_velocity_blocks m <= g ->
  getIndices m g
  = Some (0, error_velocity_block_index, error_velocity_block_index,
          error_velocity_block_index) /\
  getGlobalID m 0 error_velocity_block_index error_velocity_block_index
    error_velocity_block_index = error_velocity_block.
Proof.
  intros Hgl Hg. split.
  - unfold getIndices. destruct (Z.leb_spec (max_velocity_blocks m) g); [reflexivity | lia].
  - unfold getGlobalID, error_velocity_block_index.
    destruct (Z.leb_spec (at0 (gridLength m)) 0xFFFFFFFF); [reflexivity | lia].
Qed.

Lemma getIndices_invalid_stays_invalid_witness :
  getIndices (Mesh 12 (Array3 4 4 4) (Array3 1 1 1)%R (Array3 1 1 1)%R (Array3 3 2 2)%R
                (Array3 3 2 2) (Array3 0 0 0)%R (Array3 3 2 2)%R) 12
  = Some (0, error_velocity_block_index, error_velocity_block_index,
          error_velocity_block_index).
Proof.
  apply (getIndices_invalid_stays_invalid
           (Mesh 12 (Array3 4 4 4) (Array3 1 1 1)%R (Array3 1 1 1)%R (Array3 3 2 2)%R
              (Array3 3 2 2) (Array3 0 0 0)%R (Array3 3 2 2)%R) 12).
  - simpl. lia.
  - simpl. lia.
Defined.

(** X5. After [initialize], whatever the grid lengths are and even when their
    product wraps, [getIndices] never divides by zero: it returns indices for
    every id. *)
Theorem getIndices_never_divides_by_zero ml gl bl m g :
  initialize ml gl bl = Some (true, m) ->
  0 <= at0 gl -> 0 <= at1 gl -> 0 <= at2 gl ->
  0 <= g ->
  exists i j k, getIndices m g = Some (0, i, j, k).
Proof.
  intros Hinit H0 H1 H2 Hg.
  destruct (initialize_fields _ _ _ _ Hinit) as [Hgl Hmax].
  unfold getIndices.
  destruct (Z.leb_spec (max_velocity_blocks m) g) as [| Hlt]; [eauto |].
  rewrite Hmax in Hlt.
  destruct (grid_positive _ _ _ g H0 H1 H2 (conj Hg Hlt)) as (Ha & Hb & Hc).
  assert (Hab : U32.mul (at0 gl) (at1 gl) <> 0).
  { intros E. rewrite E in Hlt. unfold U32.mul, U32.wrap in Hlt.
    rewrite Z.mul_0_l, Z.mod_0_l in Hlt by (compute; discriminate). lia. }
  rewrite Hgl. unfold U32.rem, U32.div.
  destruct (Z.eqb_spec (at0 gl) 0); [lia |]. simpl.
  destruct (Z.eqb_spec (at1 gl) 0); [lia |]. simpl.
  destruct (Z.eqb_spec (U32.mul (at0 gl) (at1 gl)) 0); [contradiction |].
  simpl. eauto.
Qed.

(** A grid whose block count wraps: 65536 * 65537 * 2. *)
Lemma getIndices_never_divides_by_zero_witness :
  exists m,
    initialize [0; 1; 0; 1; 0; 1]%R (Array3 65536 65537 2) (Array3 4 4 4)
      = Some (true, m) /\
    exists i j k, getIndices m 70000 = Some (0, i, j, k).
Proof.
  eexists. split; [reflexivity |].
  apply (getIndices_never_divides_by_zero
           [0; 1; 0; 1; 0; 1]%R (Array3 65536 65537 2) (Array3 4 4 4));
    try reflexivity; simpl; lia.
Defined.

End VelocityMeshBlocks.

(** ** velocity_block_container.h: growing, filling and copying blocks *)

Section BlockContainerOperations.
Import VelocityBlockContainer.
Local Open Scope Z_scope.

(** The capacity [resize] computes: [2 + numberOfBlocks * 1.1], truncated. *)
Lemma grown_capacity (n : Z) :
  0 <= n -> 2 + 11 * n / 10 < U32.modulus ->
  U32.of_real (2 + IZR n * BLOCK_ALLOCATION_FACTOR) = Some (2 + 11 * n / 10).
Proof.
  intros Hn Hfit.
  assert (Hfloor : Zfloor (2 + IZR n * BLOCK_ALLOCATION_FACTOR) = 2 + 11 * n / 10).
  { apply Zfloor_eq. unfold BLOCK_ALLOCATION_FACTOR.
    pose proof (Z.div_mod (11 * n) 10 ltac:(lia)) as Hdm.
    pose proof (Z.mod_pos_bound (11 * n) 10 ltac:(lia)) as Hr.
    assert (HR : (11 * IZR n = 10 * IZR (11 * n / 10) + IZR ((11 * n) mod 10))%R).
    { rewrite <- (mult_IZR 11 n), <- (mult_IZR 10), <- plus_IZR. f_equal. exact Hdm. }
    assert (H0 : (0 <= IZR ((11 * n) mod 10))%R) by (apply IZR_le; lia).
    assert (H9 : (IZR ((11 * n) mod 10) <= 9)%R) by (apply IZR_le; lia).
    rewrite plus_IZR. lra. }
  unfold U32.of_real.
  destruct (Rle_dec 0 (2 + IZR n * BLOCK_ALLOCATION_FACTOR)) as [_ | Hneg].
  - rewrite Hfloor.
    assert (0 <= 11 * n / 10) by (apply Z.div_pos; lia).
    destruct (Z.leb_spec 0 (2 + 11 * n / 10)); [| lia].
    destruct (Z.ltb_spec (2 + 11 * n / 10) U32.modulus); [reflexivity | lia].
  - exfalso. apply Hneg. unfold BLOCK_ALLOCATION_FACTOR.
    assert (0 <= IZR n)%R by (apply IZR_le; lia). lra.
Qed.

Lemma grown_capacity_above (n : Z) : 0 <= n -> n + 2 <= 2 + 11 * n / 10.
Proof.
  intros Hn. assert (n <= 11 * n / 10); [| lia].
  apply Z.div_le_lower_bound; lia.
Qed.

(** The zero-filling loop succeeds when the filled range lies within the
    vector; it then zeroes exactly that range. *)
Lemma fill_loop_spec (base : Z) (count : nat) :
  forall (i : nat) (v : list R),
    0 <= base ->
    base + Z.of_nat i + Z.of_nat count <= Z.of_nat (length v) ->
    exists v',
      fill_loop v base i count = Some v' /\
      length v' = length v /\
      (forall j, base + Z.of_nat i <= Z.of_nat j < base + Z.of_nat i + Z.of_nat count ->
                 v' !! j = Some 0%R) /\
      (forall j, Z.of_nat j < base + Z.of_nat i \/
                 base + Z.of_nat i + Z.of_nat count <= Z.of_nat j ->
                 v' !! j = v !! j).
Proof.
  induction count as [| k IH]; intros i v Hbase Hlen; simpl.
  - exists v. split; [reflexivity |]. split; [reflexivity |].
    split; [intros; lia | intros; reflexivity].
  - destruct (decide (Z.to_nat (base + Z.of_nat i) < length v)%nat) as [Hin | Hout]; [| lia].
    destruct (IH (S i) (<[Z.to_nat (base + Z.of_nat i) := 0%R]> v) Hbase)
      as (v' & Heq & Hlen' & Hzero & Hother).
    { rewrite length_insert. lia. }
    rewrite length_insert in Hlen'.
    exists v'. split; [exact Heq |]. split; [exact Hlen' |]. split.
    + intros j Hj.
      destruct (decide (j = Z.to_nat (base + Z.of_nat i))) as [-> | Hne].
      * rewrite Hother by lia. apply list_lookup_insert_eq. lia.
      * apply Hzero. lia.
    + intros j Hj. rewrite Hother by lia.
      apply list_lookup_insert_ne. lia.
Qed.
(** The block copy loop, for a source and a target range of [width]
    elements that coincide or do not overlap: the target range receives the
    source range of the vector as it was, and nothing else changes. *)
Lemma copy_block_loop_spec (v0 : list R) (source target width : Z) :
  0 <= source -> 0 <= target ->
  source + width <= Z.of_nat (length v0) ->
  target + width <= Z.of_nat (length v0) ->
  Z.of_nat (length v0) < U32.modulus ->
  (target = source \/ source + width <= target \/ target + width <= source) ->
  forall (count i : nat) (v : list R),
    Z.of_nat i + Z.of_nat count <= width ->
    length v = length v0 ->
    (forall j, target <= Z.of_nat j < target + Z.of_nat i ->
               v !! j = v0 !! Z.to_nat (Z.of_nat j - target + source)) ->
    (forall j, Z.of_nat j < target \/ target + Z.of_nat i <= Z.of_nat j ->
               v !! j = v0 !! j) ->
    exists v',
      copy_block_loop v source target i count = Some v' /\
      length v' = length v0 /\
      (forall j, target <= Z.of_nat j < target + Z.of_nat i + Z.of_nat count ->
                 v' !! j = v0 !! Z.to_nat (Z.of_nat j - target + source)) /\
      (forall j, Z.of_nat j < target \/
                 target + Z.of_nat i + Z.of_nat count <= Z.of_nat j ->
                 v' !! j = v0 !! j).
Proof.
  intros Hs Ht HsLen HtLen Hfit Hsep.
  induction count as [| k IH]; intros i v Hi Hlen Hdone Hrest; simpl.
  - exists v. split; [reflexivity |]. split; [exact Hlen |].
    split; intros j Hj; [apply Hdone | apply Hrest]; lia.
  - assert (Hsi : U32.add source (Z.of_nat i) = source + Z.of_nat i).
    { apply U32_wrap_small. unfold U32.in_range. lia. }
    assert (Hti : U32.add target (Z.of_nat i) = target + Z.of_nat i).
    { apply U32_wrap_small. unfold U32.in_range. lia. }
    rewrite Hsi, Hti.
    destruct (lookup_lt_is_Some_2 v0 (Z.to_nat (source + Z.of_nat i)) ltac:(lia))
      as [x Hx].
    assert (Hread : v !! Z.to_nat (source + Z.of_nat i) = Some x).
    { rewrite Hrest; [exact Hx |]. lia. }
    rewrite Hread. simpl.
    destruct (decide (Z.to_nat (target + Z.of_nat i) < length v)%nat) as [_ | Hn]; [| lia].
    destruct (IH (S i) (<[Z.to_nat (target + Z.of_nat i) := x]> v))
      as (v' & Heq & Hlen' & Hin & Hout).
    + lia.
    + rewrite length_insert. exact Hlen.
    + intros j Hj.
      destruct (decide (j = Z.to_nat (target + Z.of_nat i))) as [-> | Hne].
      * rewrite list_lookup_insert_eq by lia. rewrite <- Hx. f_equal. lia.
      * rewrite list_lookup_insert_ne by lia. apply Hdone. lia.
    + intros j Hj. rewrite list_lookup_insert_ne by lia. apply Hrest. lia.
    + exists v'. split; [exact Heq |]. split; [exact Hlen' |].
      split; intros j Hj; [apply Hin | apply Hout]; lia.
Qed.

Section WithBlockSizes.
Variable WID3 : Z.
Variable N_VELOCITY_BLOCK_PARAMS : Z.
Hypothesis WID3_pos : 0 < WID3.
Hypothesis N_VELOCITY_BLOCK_PARAMS_pos : 0 < N_VELOCITY_BLOCK_PARAMS.

(** What [resize()] does when it reallocates: the capacity becomes
    [2 + 11*numberOfBlocks/10], the old elements stay and zeros follow. *)
Lemma resize_grows (c : t) :
  0 <= numberOfBlocks c ->
  0 <= currentCapacity c <= numberOfBlocks c + 1 ->
  Z.of_nat (length (block_data c)) = currentCapacity c * WID3 ->
  Z.of_nat (length (parameters c)) = currentCapacity c * N_VELOCITY_BLOCK_PARAMS ->
  (2 + 11 * numberOfBlocks c / 10) * WID3 < U32.modulus ->
  (2 + 11 * numberOfBlocks c / 10) * N_VELOCITY_BLOCK_PARAMS < U32.modulus ->
  exists c',
    resize WID3 N_VELOCITY_BLOCK_PARAMS c = Some c' /\
    currentCapacity c' = 2 + 11 * numberOfBlocks c / 10 /\
    numberOfBlocks c' = numberOfBlocks c /\
    Z.of_nat (length (block_data c')) = currentCapacity c' * WID3 /\
    Z.of_nat (length (parameters c')) = currentCapacity c' * N_VELOCITY_BLOCK_PARAMS /\
    (forall j, (j < length (block_data c))%nat -> block_data c' !! j = block_data c !! j) /\
    (forall j, (length (block_data c) <= j < length (block_data c'))%nat ->
               block_data c' !! j = Some 0%R) /\
    (forall j, (j < length (parameters c))%nat -> parameters c' !! j = parameters c !! j) /\
    (forall j, (length (parameters c) <= j < length (parameters c'))%nat ->
               parameters c' !! j = Some 0%R).
Proof.
  intros Hn Hcap HlenD HlenP HfitD HfitP.
  pose proof (grown_capacity_above (numberOfBlocks c) Hn) as Habove.
  set (cap' := 2 + 11 * numberOfBlocks c / 10) in *.
  assert (Hcap'fit : cap' < U32.modulus) by nia.
  assert (Hn1 : U32.add (numberOfBlocks c) 1 = numberOfBlocks c + 1).
  { apply U32_wrap_small. unfold U32.in_range. lia. }
  assert (HmD : U32.mul cap' WID3 = cap' * WID3).
  { apply U32_wrap_small. unfold U32.in_range. nia. }
  assert (HmP : U32.mul cap' N_VELOCITY_BLOCK_PARAMS = cap' * N_VELOCITY_BLOCK_PARAMS).
  { apply U32_wrap_small. unfold U32.in_range. nia. }
  assert (HgrowD : currentCapacity c * WID3 <= cap' * WID3)
    by (apply Z.mul_le_mono_nonneg_r; lia).
  assert (HgrowP : currentCapacity c * N_VELOCITY_BLOCK_PARAMS
                   <= cap' * N_VELOCITY_BLOCK_PARAMS)
    by (apply Z.mul_le_mono_nonneg_r; lia).
  unfold resize. rewrite Hn1.
  destruct (Z.leb_spec (currentCapacity c) (numberOfBlocks c + 1)); [| lia].
  rewrite (grown_capacity (numberOfBlocks c) Hn Hcap'fit). fold cap'. simpl.
  rewrite HmD, HmP.
  eexists. split; [reflexivity |]. simpl.
  split; [reflexivity |]. split; [reflexivity |].
  rewrite !length_resize.
  split; [nia |]. split; [nia |].
  split; [| split; [| split]].
  - intros j Hj. apply lookup_resize; lia.
  - intros j Hj. apply lookup_resize_new; lia.
  - intros j Hj. apply lookup_resize; lia.
  - intros j Hj. apply lookup_resize_new; lia.
Qed.

(** The guarded call of [resize] in [push_back], [push_back(N_blocks)] and
    [setSize]. *)
Lemma guarded_resize (c : t) (full : bool) :
  0 <= numberOfBlocks c ->
  0 <= currentCapacity c ->
  currentCapacity c * WID3 < U32.modulus ->
  currentCapacity c * N_VELOCITY_BLOCK_PARAMS < U32.modulus ->
  Z.of_nat (length (block_data c)) = currentCapacity c * WID3 ->
  Z.of_nat (length (parameters c)) = currentCapacity c * N_VELOCITY_BLOCK_PARAMS ->
  (full = true ->
   currentCapacity c <= numberOfBlocks c + 1 /\
   (2 + 11 * numberOfBlocks c / 10) * WID3 < U32.modulus /\
   (2 + 11 * numberOfBlocks c / 10) * N_VELOCITY_BLOCK_PARAMS < U32.modulus) ->
  exists c',
    (if full then resize WID3 N_VELOCITY_BLOCK_PARAMS c else Some c) = Some c' /\
    currentCapacity c'
    = (if full then 2 + 11 * numberOfBlocks c / 10 else currentCapacity c) /\
    numberOfBlocks c' = numberOfBlocks c /\
    currentCapacity c' * WID3 < U32.modulus /\
    currentCapacity c' * N_VELOCITY_BLOCK_PARAMS < U32.modulus /\
    Z.of_nat (length (block_data c')) = currentCapacity c' * WID3 /\
    Z.of_nat (length (parameters c')) = currentCapacity c' * N_VELOCITY_BLOCK_PARAMS /\
    (forall j, (j < length (block_data c))%nat -> block_data c' !! j = block_data c !! j) /\
    (forall j, (length (block_data c) <= j < length (block_data c'))%nat ->
               block_data c' !! j = Some 0%R) /\
    (forall j, (j < length (parameters c))%nat -> parameters c' !! j = parameters c !! j) /\
    (forall j, (length (parameters c) <= j < length (parameters c'))%nat ->
               parameters c' !! j = Some 0%R).
Proof.
  intros Hn Hcap HfitD HfitP HlenD HlenP Hfull.
  destruct full.
  - destruct (Hfull eq_refl) as (Hle & HfD & HfP).
    destruct (resize_grows c Hn (conj Hcap Hle) HlenD HlenP HfD HfP)
      as (c' & Hr & Hc & Hnn & HlD & HlP & Hrest).
    exists c'. split; [exact Hr |]. split; [exact Hc |]. split; [exact Hnn |].
    rewrite Hc. split; [exact HfD |]. split; [exact HfP |].
    rewrite Hc in HlD, HlP. split; [exact HlD |]. split; [exact HlP |]. exact Hrest.
  - exists c. split; [reflexivity |]. split; [reflexivity |]. split; [reflexivity |].
    split; [exact HfitD |]. split; [exact HfitP |].
    split; [exact HlenD |]. split; [exact HlenP |].
    split; [reflexivity |]. split; [intros; lia |].
    split; [reflexivity | intros; lia].
Qed.

Lemma push_back_spec (c : t) :
  consistent WID3 N_VELOCITY_BLOCK_PARAMS c ->
  (if currentCapacity c <=? numberOfBlocks c
   then 2 + 11 * numberOfBlocks c / 10 else currentCapacity c) * WID3
  < U32.modulus ->
  (if currentCapacity c <=? numberOfBlocks c
   then 2 + 11 * numberOfBlocks c / 10 else currentCapacity c) * N_VELOCITY_BLOCK_PARAMS
  < U32.modulus ->
  exists c',
    push_back WID3 N_VELOCITY_BLOCK_PARAMS c = Some (numberOfBlocks c, c') /\
    numberOfBlocks c' = numberOfBlocks c + 1 /\
    currentCapacity c'
    = (if currentCapacity c <=? numberOfBlocks c
       then 2 + 11 * numberOfBlocks c / 10 else currentCapacity c) /\
    consistent WID3 N_VELOCITY_BLOCK_PARAMS c' /\
    (forall j, Z.of_nat j < numberOfBlocks c * WID3 ->
               block_data c' !! j = block_data c !! j) /\
    (forall j, numberOfBlocks c * WID3 <= Z.of_nat j < (numberOfBlocks c + 1) * WID3 ->
               block_data c' !! j = Some 0%R) /\
    (forall j, Z.of_nat j < numberOfBlocks c * N_VELOCITY_BLOCK_PARAMS ->
               parameters c' !! j = parameters c !! j) /\
    (forall j, numberOfBlocks c * N_VELOCITY_BLOCK_PARAMS <= Z.of_nat j
               < (numberOfBlocks c + 1) * N_VELOCITY_BLOCK_PARAMS ->
               parameters c' !! j = Some 0%R).
Proof.
  intros ((Hn0 & Hncap) & HfitD & HfitP & HlenD & HlenP) HnewD HnewP.
  destruct (guarded_resize c (currentCapacity c <=? numberOfBlocks c))
    as (c1 & Hr & Hc1 & Hn1 & HfD1 & HfP1 & HlD1 & HlP1 & HoldD & _ & HoldP & _);
    try assumption; try lia.
  { intros Hfull. rewrite Hfull in HnewD, HnewP. apply Z.leb_le in Hfull.
    split; [lia |]. split; assumption. }
  set (n := numberOfBlocks c) in *.
  pose proof (grown_capacity_above n Hn0) as Habove.
  assert (Hroom : n + 1 <= currentCapacity c1).
  { rewrite Hc1. destruct (Z.leb_spec (currentCapacity c) n); lia. }
  assert (HnD : (n + 1) * WID3 <= currentCapacity c1 * WID3)
    by (apply Z.mul_le_mono_nonneg_r; lia).
  assert (HnP : (n + 1) * N_VELOCITY_BLOCK_PARAMS
                <= currentCapacity c1 * N_VELOCITY_BLOCK_PARAMS)
    by (apply Z.mul_le_mono_nonneg_r; lia).
  assert (H0D : 0 <= n * WID3) by (apply Z.mul_nonneg_nonneg; lia).
  assert (H0P : 0 <= n * N_VELOCITY_BLOCK_PARAMS) by (apply Z.mul_nonneg_nonneg; lia).
  assert (HmD : U32.mul n WID3 = n * WID3).
  { apply U32_wrap_small. unfold U32.in_range. lia. }
  assert (HmP : U32.mul n N_VELOCITY_BLOCK_PARAMS = n * N_VELOCITY_BLOCK_PARAMS).
  { apply U32_wrap_small. unfold U32.in_range. lia. }
  assert (Hcapfit : currentCapacity c1 < U32.modulus) by nia.
  assert (HoD : n * WID3 <= currentCapacity c * WID3)
    by (apply Z.mul_le_mono_nonneg_r; lia).
  assert (HoP : n * N_VELOCITY_BLOCK_PARAMS <= currentCapacity c * N_VELOCITY_BLOCK_PARAMS)
    by (apply Z.mul_le_mono_nonneg_r; lia).
  destruct (fill_loop_spec (n * WID3) (Z.to_nat WID3) 0 (block_data c1) H0D)
    as (d' & Hd & HdLen & HdZero & HdOther); [lia |].
  destruct (fill_loop_spec (n * N_VELOCITY_BLOCK_PARAMS)
              (Z.to_nat N_VELOCITY_BLOCK_PARAMS) 0 (parameters c1) H0P)
    as (p' & Hp & HpLen & HpZero & HpOther); [lia |].
  unfold push_back. fold n. rewrite Hr. simpl. rewrite HmD, HmP, Hd. simpl.
  rewrite Hp. simpl.
  eexists. split; [reflexivity |]. simpl.
  assert (Hadd : U32.add (numberOfBlocks c1) 1 = n + 1).
  { rewrite Hn1. apply U32_wrap_small. unfold U32.in_range. lia. }
  rewrite Hadd. split; [reflexivity |]. split; [exact Hc1 |].
  split.
  { unfold consistent. simpl. rewrite HdLen, HpLen. repeat split; lia. }
  split; [| split; [| split]].
  - intros j Hj. rewrite HdOther by lia. apply HoldD. lia.
  - intros j Hj. apply HdZero. lia.
  - intros j Hj. rewrite HpOther by lia. apply HoldP. lia.
  - intros j Hj. apply HpZero. lia.
Qed.

(** X10. [push_back()] on a consistent container, when the capacity it
    needs still gives 32-bit element counts: it returns the old number of
    blocks as the index of the new block, raises the number of blocks by
    one, keeps the capacity if there was a free block and otherwise raises
    it to [2 + 11*numberOfBlocks/10], leaves the container consistent,
    keeps every element of the existing blocks and sets every element of
    the new block's data and parameters to zero. *)
Theorem push_back_effect (c : t) :
  consistent WID3 N_VELOCITY_BLOCK_PARAMS c ->
  (if currentCapacity c <=? numberOfBlocks c
   then 2 + 11 * numberOfBlocks c / 10 else currentCapacity c) * WID3
  < U32.modulus ->
  (if currentCapacity c <=? numberOfBlocks c
   then 2 + 11 * numberOfBlocks c / 10 else currentCapacity c) * N_VELOCITY_BLOCK_PARAMS
  < U32.modulus ->
  exists c',
    push_back WID3 N_VELOCITY_BLOCK_PARAMS c = Some (numberOfBlocks c, c') /\
    numberOfBlocks c' = numberOfBlocks c + 1 /\
    currentCapacity c'
    = (if currentCapacity c <=? numberOfBlocks c
       then 2 + 11 * numberOfBlocks c / 10 else currentCapacity c) /\
    consistent WID3 N_VELOCITY_BLOCK_PARAMS c' /\
    (forall j, Z.of_nat j < numberOfBlocks c * WID3 ->
               block_data c' !! j = block_data c !! j) /\
    (forall j, numberOfBlocks c * WID3 <= Z.of_nat j < (numberOfBlocks c + 1) * WID3 ->
               block_data c' !! j = Some 0%R) /\
    (forall j, Z.of_nat j < numberOfBlocks c * N_VELOCITY_BLOCK_PARAMS ->
               parameters c' !! j = parameters c !! j) /\
    (forall j, numberOfBlocks c * N_VELOCITY_BLOCK_PARAMS <= Z.of_nat j
               < (numberOfBlocks c + 1) * N_VELOCITY_BLOCK_PARAMS ->
               parameters c' !! j = Some 0%R).
Proof. apply push_back_spec. Qed.

(** X11. [pop()] after [push_back()] gives back the number of blocks and the
    contents of all blocks the container had; only the capacity may have
    grown. *)
Theorem pop_after_push_back (c : t) :
  consistent WID3 N_VELOCITY_BLOCK_PARAMS c ->
  (if currentCapacity c <=? numberOfBlocks c
   then 2 + 11 * numberOfBlocks c / 10 else currentCapacity c) * WID3
  < U32.modulus ->
  (if currentCapacity c <=? numberOfBlocks c
   then 2 + 11 * numberOfBlocks c / 10 else currentCapacity c) * N_VELOCITY_BLOCK_PARAMS
  < U32.modulus ->
  exists index c',
    push_back WID3 N_VELOCITY_BLOCK_PARAMS c = Some (index, c') /\
    numberOfBlocks (pop c') = numberOfBlocks c /\
    currentCapacity c <= currentCapacity (pop c') /\
    consistent WID3 N_VELOCITY_BLOCK_PARAMS (pop c') /\
    (forall j, Z.of_nat j < numberOfBlocks c * WID3 ->
               block_data (pop c') !! j = block_data c !! j) /\
    (forall j, Z.of_nat j < numberOfBlocks c * N_VELOCITY_BLOCK_PARAMS ->
               parameters (pop c') !! j = parameters c !! j).
Proof.
  intros Hc HnewD HnewP.
  destruct (push_back_spec c Hc HnewD HnewP)
    as (c' & Hpush & Hn' & Hcap' & Hcons' & HD & _ & HP & _).
  destruct Hc as ((Hn0 & Hncap) & _).
  destruct Hcons' as ((_ & Hn'cap) & HfD & HfP & HlD & HlP).
  exists (numberOfBlocks c), c'. split; [exact Hpush |].
  assert (Hpop : pop c' = {| currentCapacity := currentCapacity c';
                            numberOfBlocks := numberOfBlocks c;
                            block_data := block_data c';
                            parameters := parameters c' |}).
  { unfold pop. destruct (Z.eqb_spec (numberOfBlocks c') 0) as [E | _]; [lia |].
    f_equal. rewrite Hn'. unfold U32.sub.
    replace (numberOfBlocks c + 1 - 1) with (numberOfBlocks c) by lia.
    apply U32_wrap_small. unfold U32.in_range. nia. }
  rewrite Hpop. simpl. split; [reflexivity |].
  pose proof (grown_capacity_above (numberOfBlocks c) Hn0).
  split.
  { rewrite Hcap'. destruct (Z.leb_spec (currentCapacity c) (numberOfBlocks c)); lia. }
  split.
  { unfold consistent. simpl. repeat split; lia. }
  split; assumption.
Qed.

(** X12. [setSize(newSize)] on a consistent container, when the capacity it
    needs still gives 32-bit element counts: it returns [true], sets the
    number of blocks to [newSize], keeps the capacity if [newSize] fits and
    otherwise raises it to [2 + 11*newSize/10], leaves the container
    consistent, and keeps every element the vectors held; it zeroes only
    elements appended by a reallocation, so blocks uncovered within the old
    capacity keep whatever they contained. *)
Theorem setSize_effect (c : t) (newSize : Z) :
  consistent WID3 N_VELOCITY_BLOCK_PARAMS c ->
  0 <= newSize ->
  (if currentCapacity c <? newSize
   then 2 + 11 * newSize / 10 else currentCapacity c) * WID3 < U32.modulus ->
  (if currentCapacity c <? newSize
   then 2 + 11 * newSize / 10 else currentCapacity c) * N_VELOCITY_BLOCK_PARAMS
  < U32.modulus ->
  exists c',
    setSize WID3 N_VELOCITY_BLOCK_PARAMS c newSize = Some (true, c') /\
    numberOfBlocks c' = newSize /\
    currentCapacity c'
    = (if currentCapacity c <? newSize
       then 2 + 11 * newSize / 10 else currentCapacity c) /\
    consistent WID3 N_VELOCITY_BLOCK_PARAMS c' /\
    (forall j, (j < length (block_data c))%nat -> block_data c' !! j = block_data c !! j) /\
    (forall j, (length (block_data c) <= j < length (block_data c'))%nat ->
               block_data c' !! j = Some 0%R) /\
    (forall j, (j < length (parameters c))%nat -> parameters c' !! j = parameters c !! j) /\
    (forall j, (length (parameters c) <= j < length (parameters c'))%nat ->
               parameters c' !! j = Some 0%R).
Proof.
  intros ((Hn0 & Hncap) & HfitD & HfitP & HlenD & HlenP) Hnew HnewD HnewP.
  destruct (guarded_resize
              {| currentCapacity := currentCapacity c; numberOfBlocks := newSize;
                 block_data := block_data c; parameters := parameters c |}
              (currentCapacity c <? newSize))
    as (c1 & Hr & Hc1 & Hn1 & HfD1 & HfP1 & HlD1 & HlP1 & Hrest);
    simpl; try assumption; try lia.
  { intros Hfull. rewrite Hfull in HnewD, HnewP. apply Z.ltb_lt in Hfull.
    split; [lia |]. split; assumption. }
  simpl in *. unfold setSize. rewrite Hr. simpl.
  exists c1. split; [reflexivity |]. split; [exact Hn1 |]. split; [exact Hc1 |].
  split; [| exact Hrest].
  pose proof (grown_capacity_above newSize Hnew).
  unfold consistent. rewrite Hn1.
  repeat split; try assumption.
  rewrite Hc1. destruct (Z.ltb_spec (currentCapacity c) newSize); lia.
Qed.

(** X13. [push_back(N_blocks)] on a consistent container, when the capacity
    it needs still gives 32-bit element counts: it returns the old number of
    blocks, raises the number of blocks by [N_blocks], keeps the capacity if
    the blocks fit and otherwise raises it to [2 + 11*(new number of
    blocks)/10], leaves the container consistent, keeps every element of the
    existing blocks and zeroes every element of the [N_blocks] new
    blocks. *)
Theorem push_back_blocks_effect (c : t) (N_blocks : Z) :
  consistent WID3 N_VELOCITY_BLOCK_PARAMS c ->
  0 <= N_blocks ->
  (if currentCapacity c <? numberOfBlocks c + N_blocks
   then 2 + 11 * (numberOfBlocks c + N_blocks) / 10 else currentCapacity c) * WID3
  < U32.modulus ->
  (if currentCapacity c <? numberOfBlocks c + N_blocks
   then 2 + 11 * (numberOfBlocks c + N_blocks) / 10 else currentCapacity c)
  * N_VELOCITY_BLOCK_PARAMS < U32.modulus ->
  exists c',
    push_back_blocks WID3 N_VELOCITY_BLOCK_PARAMS c N_blocks
    = Some (numberOfBlocks c, c') /\
    numberOfBlocks c' = numberOfBlocks c + N_blocks /\
    currentCapacity c'
    = (if currentCapacity c <? numberOfBlocks c + N_blocks
       then 2 + 11 * (numberOfBlocks c + N_blocks) / 10 else currentCapacity c) /\
    consistent WID3 N_VELOCITY_BLOCK_PARAMS c' /\
    (forall j, Z.of_nat j < numberOfBlocks c * WID3 ->
               block_data c' !! j = block_data c !! j) /\
    (forall j, numberOfBlocks c * WID3 <= Z.of_nat j
               < (numberOfBlocks c + N_blocks) * WID3 ->
               block_data c' !! j = Some 0%R) /\
    (forall j, Z.of_nat j < numberOfBlocks c * N_VELOCITY_BLOCK_PARAMS ->
               parameters c' !! j = parameters c !! j) /\
    (forall j, numberOfBlocks c * N_VELOCITY_BLOCK_PARAMS <= Z.of_nat j
               < (numberOfBlocks c + N_blocks) * N_VELOCITY_BLOCK_PARAMS ->
               parameters c' !! j = Some 0%R).
Proof.
  intros ((Hn0 & Hncap) & HfitD & HfitP & HlenD & HlenP) HN HnewD HnewP.
  set (n := numberOfBlocks c) in *.
  pose proof (grown_capacity_above (n + N_blocks) ltac:(lia)) as Habove.
  set (cap' := if currentCapacity c <? n + N_blocks
               then 2 + 11 * (n + N_blocks) / 10 else currentCapacity c) in *.
  assert (Hroom : n + N_blocks <= cap').
  { unfold cap'. destruct (Z.ltb_spec (currentCapacity c) (n + N_blocks)); lia. }
  assert (Hcap'fit : cap' < U32.modulus) by nia.
  assert (Hsum : U32.add n N_blocks = n + N_blocks).
  { apply U32_wrap_small. unfold U32.in_range. lia. }
  destruct (guarded_resize
              {| currentCapacity := currentCapacity c; numberOfBlocks := n + N_blocks;
                 block_data := block_data c; parameters := parameters c |}
              (currentCapacity c <? n + N_blocks))
    as (c1 & Hr & Hc1 & Hn1 & HfD1 & HfP1 & HlD1 & HlP1 & HoldD & _ & HoldP & _);
    simpl; try assumption; try lia.
  { intros Hfull. unfold cap' in HnewD, HnewP. rewrite Hfull in HnewD, HnewP.
    apply Z.ltb_lt in Hfull. split; [lia |]. split; assumption. }
  simpl in *. fold cap' in Hc1.
  assert (HnD : (n + N_blocks) * WID3 <= cap' * WID3)
    by (apply Z.mul_le_mono_nonneg_r; lia).
  assert (HnP : (n + N_blocks) * N_VELOCITY_BLOCK_PARAMS <= cap' * N_VELOCITY_BLOCK_PARAMS)
    by (apply Z.mul_le_mono_nonneg_r; lia).
  assert (H0D : 0 <= n * WID3) by (apply Z.mul_nonneg_nonneg; lia).
  assert (H0P : 0 <= n * N_VELOCITY_BLOCK_PARAMS) by (apply Z.mul_nonneg_nonneg; lia).
  assert (H0ND : 0 <= WID3 * N_blocks) by (apply Z.mul_nonneg_nonneg; lia).
  assert (H0NP : 0 <= N_VELOCITY_BLOCK_PARAMS * N_blocks)
    by (apply Z.mul_nonneg_nonneg; lia).
  assert (HoD : n * WID3 <= currentCapacity c * WID3)
    by (apply Z.mul_le_mono_nonneg_r; lia).
  assert (HoP : n * N_VELOCITY_BLOCK_PARAMS <= currentCapacity c * N_VELOCITY_BLOCK_PARAMS)
    by (apply Z.mul_le_mono_nonneg_r; lia).
  assert (HmD : U32.mul n WID3 = n * WID3).
  { apply U32_wrap_small. unfold U32.in_range. lia. }
  assert (HmP : U32.mul n N_VELOCITY_BLOCK_PARAMS = n * N_VELOCITY_BLOCK_PARAMS).
  { apply U32_wrap_small. unfold U32.in_range. lia. }
  assert (HcD : U32.mul WID3 N_blocks = WID3 * N_blocks).
  { apply U32_wrap_small. unfold U32.in_range. lia. }
  assert (HcP : U32.mul N_VELOCITY_BLOCK_PARAMS N_blocks
                = N_VELOCITY_BLOCK_PARAMS * N_blocks).
  { apply U32_wrap_small. unfold U32.in_range. lia. }
  rewrite Hc1 in HlD1, HlP1.
  destruct (fill_loop_spec (n * WID3) (Z.to_nat (WID3 * N_blocks)) 0 (block_data c1) H0D)
    as (d' & Hd & HdLen & HdZero & HdOther); [lia |].
  destruct (fill_loop_spec (n * N_VELOCITY_BLOCK_PARAMS)
              (Z.to_nat (N_VELOCITY_BLOCK_PARAMS * N_blocks)) 0 (parameters c1) H0P)
    as (p' & Hp & HpLen & HpZero & HpOther); [lia |].
  unfold push_back_blocks. fold n. simpl. rewrite Hsum, Hr. simpl.
  rewrite HmD, HmP, HcD, HcP, Hd. simpl. rewrite Hp. simpl.
  eexists. split; [reflexivity |]. simpl.
  split; [exact Hn1 |]. split; [exact Hc1 |].
  split.
  { unfold consistent. simpl. rewrite HdLen, HpLen, Hn1, Hc1. repeat split; lia. }
  split; [| split; [| split]].
  - intros j Hj. rewrite HdOther by lia. apply HoldD. lia.
  - intros j Hj. apply HdZero. lia.
  - intros j Hj. rewrite HpOther by lia. apply HoldP. lia.
  - intros j Hj. apply HpZero. lia.
Qed.
(** Blocks of [width] elements coincide or do not overlap. *)
Lemma blocks_apart (source target width : Z) :
  0 < width -> 0 <= source -> 0 <= target ->
  target * width = source * width \/
  source * width + width <= target * width \/
  target * width + width <= source * width.
Proof.
  intros Hw Hs Ht.
  destruct (Z.lt_trichotomy source target) as [Hlt | [-> | Hgt]].
  - right. left. replace (source * width + width) with ((source + 1) * width) by ring.
    apply Z.mul_le_mono_nonneg_r; lia.
  - left. reflexivity.
  - right. right. replace (target * width + width) with ((target + 1) * width) by ring.
    apply Z.mul_le_mono_nonneg_r; lia.
Qed.

(** X14. [copy(source,target)] on a consistent container, for two blocks
    within the capacity: afterwards every element of the target block's data
    and parameters equals the corresponding element the source block had,
    every element outside the target block is unchanged, and so are the
    number of blocks and the capacity. *)
Theorem copy_effect (c : t) (source target : Z) :
  consistent WID3 N_VELOCITY_BLOCK_PARAMS c ->
  0 <= source < currentCapacity c ->
  0 <= target < currentCapacity c ->
  exists c',
    copy WID3 N_VELOCITY_BLOCK_PARAMS c source target = Some c' /\
    numberOfBlocks c' = numberOfBlocks c /\
    currentCapacity c' = currentCapacity c /\
    consistent WID3 N_VELOCITY_BLOCK_PARAMS c' /\
    (forall i, 0 <= i < WID3 ->
               block_data c' !! Z.to_nat (target * WID3 + i)
               = block_data c !! Z.to_nat (source * WID3 + i)) /\
    (forall j, Z.of_nat j < target * WID3 \/ (target + 1) * WID3 <= Z.of_nat j ->
               block_data c' !! j = block_data c !! j) /\
    (forall i, 0 <= i < N_VELOCITY_BLOCK_PARAMS ->
               parameters c' !! Z.to_nat (target * N_VELOCITY_BLOCK_PARAMS + i)
               = parameters c !! Z.to_nat (source * N_VELOCITY_BLOCK_PARAMS + i)) /\
    (forall j, Z.of_nat j < target * N_VELOCITY_BLOCK_PARAMS \/
               (target + 1) * N_VELOCITY_BLOCK_PARAMS <= Z.of_nat j ->
               parameters c' !! j = parameters c !! j).
Proof.
  intros ((Hn0 & Hncap) & HfitD & HfitP & HlenD & HlenP) Hs Ht.
  assert (Bounds : forall w b, 0 < w -> 0 <= b < currentCapacity c ->
            0 <= b * w /\ b * w + w <= currentCapacity c * w).
  { intros w b Hw Hb. split; [apply Z.mul_nonneg_nonneg; lia |].
    replace (b * w + w) with ((b + 1) * w) by ring.
    apply Z.mul_le_mono_nonneg_r; lia. }
  destruct (Bounds WID3 source WID3_pos Hs) as [SD0 SD1].
  destruct (Bounds WID3 target WID3_pos Ht) as [TD0 TD1].
  destruct (Bounds _ source N_VELOCITY_BLOCK_PARAMS_pos Hs) as [SP0 SP1].
  destruct (Bounds _ target N_VELOCITY_BLOCK_PARAMS_pos Ht) as [TP0 TP1].
  assert (HmSD : U32.mul source WID3 = source * WID3)
    by (apply U32_wrap_small; unfold U32.in_range; lia).
  assert (HmTD : U32.mul target WID3 = target * WID3)
    by (apply U32_wrap_small; unfold U32.in_range; lia).
  assert (HmSP : U32.mul source N_VELOCITY_BLOCK_PARAMS = source * N_VELOCITY_BLOCK_PARAMS)
    by (apply U32_wrap_small; unfold U32.in_range; lia).
  assert (HmTP : U32.mul target N_VELOCITY_BLOCK_PARAMS = target * N_VELOCITY_BLOCK_PARAMS)
    by (apply U32_wrap_small; unfold U32.in_range; lia).
  destruct (copy_block_loop_spec (block_data c) (source * WID3) (target * WID3) WID3
              SD0 TD0 ltac:(lia) ltac:(lia) ltac:(lia)
              (blocks_apart source target WID3 WID3_pos ltac:(lia) ltac:(lia))
              (Z.to_nat WID3) 0 (block_data c))
    as (d' & Hd & HdLen & HdIn & HdOut);
    [lia | reflexivity | intros; lia | reflexivity |].
  destruct (copy_block_loop_spec (parameters c)
              (source * N_VELOCITY_BLOCK_PARAMS) (target * N_VELOCITY_BLOCK_PARAMS)
              N_VELOCITY_BLOCK_PARAMS
              SP0 TP0 ltac:(lia) ltac:(lia) ltac:(lia)
              (blocks_apart source target _ N_VELOCITY_BLOCK_PARAMS_pos
                 ltac:(lia) ltac:(lia))
              (Z.to_nat N_VELOCITY_BLOCK_PARAMS) 0 (parameters c))
    as (p' & Hp & HpLen & HpIn & HpOut);
    [lia | reflexivity | intros; lia | reflexivity |].
  unfold copy. rewrite HmSD, HmTD, HmSP, HmTP, Hd. simpl. rewrite Hp. simpl.
  eexists. split; [reflexivity |]. simpl.
  split; [reflexivity |]. split; [reflexivity |].
  split.
  { unfold consistent. simpl. rewrite HdLen, HpLen. repeat split; lia. }
  split; [| split; [| split]].
  - intros i Hi. rewrite HdIn by lia. f_equal. lia.
  - intros j Hj. apply HdOut. lia.
  - intros i Hi. rewrite HpIn by lia. f_equal. lia.
  - intros j Hj. apply HpOut. lia.
Qed.
End WithBlockSizes.

(** Witnesses: blocks of 4 cells and 2 parameters; a full container of two
    blocks. *)
Ltac container_side_condition :=
  cbv [consistent]; repeat split; vm_compute; congruence.

Lemma push_back_effect_witness :
  exists c',
    push_back 4 2 (Container 2 2 [1; 2; 3; 4; 5; 6; 7; 8]%R [1; 2; 3; 4]%R) = Some (2, c') /\
    numberOfBlocks c' = 3 /\
    currentCapacity c' = 4 /\
    block_data c' !! 7%nat = Some 8%R /\
    block_data c' !! 8%nat = Some 0%R.
Proof.
  destruct (push_back_effect 4 2 ltac:(lia) ltac:(lia)
              (Container 2 2 [1; 2; 3; 4; 5; 6; 7; 8]%R [1; 2; 3; 4]%R)
              ltac:(container_side_condition) ltac:(container_side_condition) ltac:(container_side_condition))
    as (c' & Hpush & Hn & Hcap & _ & Hold & Hnew & _).
  exists c'. split; [exact Hpush |]. split; [exact Hn |]. split; [exact Hcap |].
  split; [apply (Hold 7%nat); simpl; lia | apply (Hnew 8%nat); simpl; lia].
Defined.

Lemma pop_after_push_back_witness :
  exists index c',
    push_back 4 2 (Container 2 2 [1; 2; 3; 4; 5; 6; 7; 8]%R [1; 2; 3; 4]%R)
    = Some (index, c') /\
    numberOfBlocks (pop c') = 2 /\
    block_data (pop c') !! 7%nat = Some 8%R.
Proof.
  destruct (pop_after_push_back 4 2 ltac:(lia) ltac:(lia)
              (Container 2 2 [1; 2; 3; 4; 5; 6; 7; 8]%R [1; 2; 3; 4]%R)
              ltac:(container_side_condition) ltac:(container_side_condition) ltac:(container_side_condition))
    as (index & c' & Hpush & Hn & _ & _ & Hold & _).
  exists index, c'. split; [exact Hpush |]. split; [exact Hn |].
  apply (Hold 7%nat). simpl. lia.
Defined.

Lemma setSize_effect_witness :
  exists c',
    setSize 4 2 (Container 2 1 [1; 2; 3; 4; 5; 6; 7; 8]%R [1; 2; 3; 4]%R) 2 = Some (true, c') /\
    numberOfBlocks c' = 2 /\
    currentCapacity c' = 2 /\
    block_data c' !! 7%nat = Some 8%R.
Proof.
  destruct (setSize_effect 4 2 ltac:(lia) ltac:(lia)
              (Container 2 1 [1; 2; 3; 4; 5; 6; 7; 8]%R [1; 2; 3; 4]%R) 2
              ltac:(container_side_condition) ltac:(lia) ltac:(container_side_condition) ltac:(container_side_condition))
    as (c' & Hset & Hn & Hcap & _ & Hold & _).
  exists c'. split; [exact Hset |]. split; [exact Hn |]. split; [exact Hcap |].
  apply (Hold 7%nat). simpl. lia.
Defined.

Lemma push_back_blocks_effect_witness :
  exists c',
    push_back_blocks 4 2 (Container 2 2 [1; 2; 3; 4; 5; 6; 7; 8]%R [1; 2; 3; 4]%R) 3
    = Some (2, c') /\
    numberOfBlocks c' = 5 /\
    currentCapacity c' = 7 /\
    block_data c' !! 7%nat = Some 8%R /\
    block_data c' !! 19%nat = Some 0%R.
Proof.
  destruct (push_back_blocks_effect 4 2 ltac:(lia) ltac:(lia)
              (Container 2 2 [1; 2; 3; 4; 5; 6; 7; 8]%R [1; 2; 3; 4]%R) 3
              ltac:(container_side_condition) ltac:(lia) ltac:(container_side_condition) ltac:(container_side_condition))
    as (c' & Hpush & Hn & Hcap & _ & Hold & Hnew & _).
  exists c'. split; [exact Hpush |]. split; [exact Hn |]. split; [exact Hcap |].
  split; [apply (Hold 7%nat); simpl; lia | apply (Hnew 19%nat); simpl; lia].
Defined.

Lemma copy_effect_witness :
  exists c',
    copy 4 2 (Container 2 2 [1; 2; 3; 4; 5; 6; 7; 8]%R [1; 2; 3; 4]%R) 1 0 = Some c' /\
    block_data c' !! 0%nat = Some 5%R /\
    block_data c' !! 4%nat = Some 5%R.
Proof.
  destruct (copy_effect 4 2 ltac:(lia) ltac:(lia)
              (Container 2 2 [1; 2; 3; 4; 5; 6; 7; 8]%R [1; 2; 3; 4]%R) 1 0
              ltac:(container_side_condition) ltac:(simpl; lia) ltac:(simpl; lia))
    as (c' & Hcopy & _ & _ & _ & Hin & Hout & _).
  exists c'. split; [exact Hcopy |].
  split; [apply (Hin 0); lia | apply (Hout 4%nat); simpl; lia].
Defined.
End BlockContainerOperations.

(** ** sysboundary/ionosphere.h: further properties of the areas *)

Section Areas.
Import SphericalTriGrid.
Local Open Scope R_scope.



End Areas.

(** ** velocity_block_container.h: reserving room before adding blocks *)

Section ReserveThenAdd.
Import VelocityBlockContainer.
Local Open Scope Z_scope.

Variable WID3 : Z.
Variable N_VELOCITY_BLOCK_PARAMS : Z.
Hypothesis WID3_pos : 0 < WID3.
Hypothesis N_VELOCITY_BLOCK_PARAMS_pos : 0 < N_VELOCITY_BLOCK_PARAMS.

(** X17. After [recapacitate(newCapacity)] with [newCapacity] above the
    number of blocks (and element counts that fit in 32 bits), the next
    [push_back()] does not reallocate: the capacity is still [newCapacity],
    the new block has the index of the old number of blocks, and every
    element of the blocks the container had is still in place. *)
Theorem recapacitate_then_push_back (c : t) (newCapacity : Z) :
  consistent WID3 N_VELOCITY_BLOCK_PARAMS c ->
  numberOfBlocks c < newCapacity ->
  newCapacity * WID3 < U32.modulus ->
  newCapacity * N_VELOCITY_BLOCK_PARAMS < U32.modulus ->
  exists c1 c2,
    recapacitate WID3 N_VELOCITY_BLOCK_PARAMS c newCapacity = Some (true, c1) /\
    push_back WID3 N_VELOCITY_BLOCK_PARAMS c1 = Some (numberOfBlocks c, c2) /\
    currentCapacity c2 = newCapacity /\
    numberOfBlocks c2 = numberOfBlocks c + 1 /\
    consistent WID3 N_VELOCITY_BLOCK_PARAMS c2 /\
    (forall j, Z.of_nat j < numberOfBlocks c * WID3 ->
               block_data c2 !! j = block_data c !! j) /\
    (forall j, Z.of_nat j < numberOfBlocks c * N_VELOCITY_BLOCK_PARAMS ->
               parameters c2 !! j = parameters c !! j).
Proof.
  intros ((Hn0 & Hncap) & HfitD & HfitP & HlenD & HlenP) Hroom HnewD HnewP.
  assert (HoD : numberOfBlocks c * WID3 <= currentCapacity c * WID3)
    by (apply Z.mul_le_mono_nonneg_r; lia).
  assert (HoP : numberOfBlocks c * N_VELOCITY_BLOCK_PARAMS
                <= currentCapacity c * N_VELOCITY_BLOCK_PARAMS)
    by (apply Z.mul_le_mono_nonneg_r; lia).
  destruct (recapacitate_copy (block_data c) (numberOfBlocks c) newCapacity WID3)
    as (d' & Hd & HdLen & HdIn); try lia.
  destruct (recapacitate_copy (parameters c) (numberOfBlocks c) newCapacity
              N_VELOCITY_BLOCK_PARAMS)
    as (p' & Hp & HpLen & HpIn); try lia.
  set (c1 := {| currentCapacity := newCapacity; numberOfBlocks := numberOfBlocks c;
                block_data := d'; parameters := p' |}).
  assert (Hc1 : consistent WID3 N_VELOCITY_BLOCK_PARAMS c1).
  { unfold consistent, c1. simpl. repeat split; lia. }
  destruct (push_back_spec WID3 N_VELOCITY_BLOCK_PARAMS WID3_pos
              N_VELOCITY_BLOCK_PARAMS_pos c1 Hc1)
    as (c2 & Hpush & Hn2 & Hcap2 & Hcons2 & HD & _ & HP & _).
  { simpl. destruct (Z.leb_spec newCapacity (numberOfBlocks c)); lia. }
  { simpl. destruct (Z.leb_spec newCapacity (numberOfBlocks c)); lia. }
  simpl in *.
  exists c1, c2. split.
  { unfold recapacitate.
    destruct (Z.ltb_spec newCapacity (numberOfBlocks c)); [lia |].
    rewrite Hd. simpl. rewrite Hp. reflexivity. }
  split; [exact Hpush |].
  split.
  { rewrite Hcap2. destruct (Z.leb_spec newCapacity (numberOfBlocks c)); [lia | reflexivity]. }
  split; [exact Hn2 |]. split; [exact Hcons2 |].
  split.
  - intros j Hj. rewrite HD by exact Hj. apply HdIn. exact Hj.
  - intros j Hj. rewrite HP by exact Hj. apply HpIn. exact Hj.
Qed.
End ReserveThenAdd.

Lemma recapacitate_then_push_back_witness :
  exists c1 c2,
    VelocityBlockContainer.recapacitate 4 2
      (VelocityBlockContainer.Container 2 2 [1; 2; 3; 4; 5; 6; 7; 8]%R [1; 2; 3; 4]%R) 3
    = Some (true, c1) /\
    VelocityBlockContainer.push_back 4 2 c1 = Some (2%Z, c2) /\
    VelocityBlockContainer.currentCapacity c2 = 3%Z /\
    VelocityBlockContainer.block_data c2 !! 7%nat = Some 8%R.
Proof.
  destruct (recapacitate_then_push_back 4 2 ltac:(lia) ltac:(lia)
              (VelocityBlockContainer.Container 2 2 [1; 2; 3; 4; 5; 6; 7; 8]%R
                 [1; 2; 3; 4]%R) 3
              ltac:(cbv [VelocityBlockContainer.consistent]; repeat split;
                    vm_compute; congruence)
              ltac:(simpl; lia) ltac:(reflexivity) ltac:(reflexivity))
    as (c1 & c2 & Hr & Hpush & Hcap & _ & _ & Hold & _).
  exists c1, c2. split; [exact Hr |]. split; [exact Hpush |]. split; [exact Hcap |].
  apply (Hold 7%nat). simpl. lia.
Defined.

(** ** velocity_block_container.h: the consistent states *)

Section ConsistentStates.
Import VelocityBlockContainer.
Local Open Scope Z_scope.

Variable WID3 : Z.
Variable N_VELOCITY_BLOCK_PARAMS : Z.
Hypothesis WID3_pos : 0 < WID3.
Hypothesis N_VELOCITY_BLOCK_PARAMS_pos : 0 < N_VELOCITY_BLOCK_PARAMS.

(** X18. The consistent states (the number of blocks within the capacity,
    both vectors holding exactly [currentCapacity] blocks, element counts
    within 32 bits) contain the freshly constructed container and the
    result of [clear()], and are closed under [pop()] and under a
    successful [recapacitate(newCapacity)] whose element counts fit in
    32 bits. *)
Theorem consistent_states_kept :
  consistent WID3 N_VELOCITY_BLOCK_PARAMS empty /\
  (forall c, consistent WID3 N_VELOCITY_BLOCK_PARAMS (clear c)) /\
  (forall c, consistent WID3 N_VELOCITY_BLOCK_PARAMS c ->
             consistent WID3 N_VELOCITY_BLOCK_PARAMS (pop c)) /\
  (forall c newCapacity c',
      consistent WID3 N_VELOCITY_BLOCK_PARAMS c ->
      newCapacity * WID3 < U32.modulus ->
      newCapacity * N_VELOCITY_BLOCK_PARAMS < U32.modulus ->
      recapacitate WID3 N_VELOCITY_BLOCK_PARAMS c newCapacity = Some (true, c') ->
      consistent WID3 N_VELOCITY_BLOCK_PARAMS c' /\
      currentCapacity c' = newCapacity /\
      numberOfBlocks c' = numberOfBlocks c).
Proof.
  split; [| split; [| split]].
  - unfold consistent, U32.modulus. simpl. lia.
  - intros c. unfold consistent, U32.modulus. simpl. lia.
  - intros c ((Hn0 & Hncap) & HfitD & HfitP & HlenD & HlenP). unfold pop.
    destruct (Z.eqb_spec (numberOfBlocks c) 0) as [E | Hne].
    + unfold consistent. repeat split; lia.
    + unfold consistent. simpl.
      assert (U32.sub (numberOfBlocks c) 1 = numberOfBlocks c - 1) as ->.
      { apply U32_wrap_small. unfold U32.in_range. nia. }
      repeat split; lia.
  - intros c newCapacity c' ((Hn0 & Hncap) & HfitD & HfitP & HlenD & HlenP)
      HnewD HnewP Hr.
    assert (Hle : numberOfBlocks c <= newCapacity).
    { unfold recapacitate in Hr.
      destruct (Z.ltb_spec newCapacity (numberOfBlocks c)); [discriminate Hr | lia]. }
    assert (Halloc : blocks_allocated WID3 N_VELOCITY_BLOCK_PARAMS c).
    { unfold blocks_allocated. rewrite HlenD, HlenP.
      split; apply Z.mul_le_mono_nonneg_r; lia. }
    destruct (blocks_allocated_recapacitate WID3 N_VELOCITY_BLOCK_PARAMS
                ltac:(lia) ltac:(lia) c c' newCapacity (conj Hn0 Hle)
                HnewD HnewP Halloc Hr) as (_ & HlD' & HlP').
    unfold recapacitate in Hr.
    destruct (Z.ltb_spec newCapacity (numberOfBlocks c)); [discriminate Hr |].
    destruct (copy_loop (block_data c) _ _ _) as [d' |]; simpl in Hr;
      [| discriminate Hr].
    destruct (copy_loop (parameters c) _ _ _) as [p' |]; simpl in Hr;
      [| discriminate Hr].
    injection Hr as <-. simpl in *.
    unfold consistent. simpl. repeat split; lia.
Qed.
End ConsistentStates.

Lemma consistent_states_kept_witness :
  VelocityBlockContainer.consistent 4 2
    (VelocityBlockContainer.pop
       (VelocityBlockContainer.Container 2 2 [1; 2; 3; 4; 5; 6; 7; 8]%R [1; 2; 3; 4]%R)).
Proof.
  apply (consistent_states_kept 4 2 ltac:(lia) ltac:(lia)).
  cbv [VelocityBlockContainer.consistent]; repeat split; vm_compute; congruence.
Defined.
